(** * nodeImageCombiner: the normalizer and the column interleaver

    A shallow embedding of [imageCombiner.ts] / [imageCombiner.js] (and of
    the two earlier variants of the same program), followed by the
    properties of its natural-language specification.

    Conventions of the embedding.
    - A JavaScript [Canvas] is a mutable object: canvases live in a store
      and the program handles references to them.
    - The drawing library keeps a canvas premultiplied by alpha, eight
      bits per channel. The bytes of a canvas in the store are the
      straight-alpha bytes [getImageData] reads back from that surface, and
      [putImageData] passes every pixel it writes through the surface
      ([stored]): an opaque pixel is kept, a pixel of alpha [0] becomes
      transparent black, a translucent pixel keeps its alpha and has its
      colours quantised.
    - [saveImage] starts a PNG stream and returns. The store records the
      streams started, under [files]; whether a file comes to exist is
      settled after the program's own code has run ([stream_end]), and a
      stream that cannot open its file fails with no handler in the
      program.
    - [ImageData.data] is a [Uint8ClampedArray]: reading past its end gives
      [undefined], writing past its end is ignored, and a stored value is
      converted by ToUint8Clamp ([undefined] becomes [0]).
    - JavaScript numbers are IEEE-754 binary64 values; where the program
      divides or multiplies, the embedding uses Rocq's primitive floats. *)

From Stdlib Require Import ZArith Lia Bool.
From Stdlib Require Import Floats Uint63.
From stdpp Require Import base list strings.

Local Open Scope nat_scope.

(** ** Typed arrays *)

Module TypedArray.

(** A channel value is an integer; a well-formed one lies in [0, 255]. *)
Definition is_byte (v : Z) : Prop := (0 <= v <= 255)%Z.

(** ToUint8Clamp applied to the result of an indexed read: [None] is
    JavaScript's [undefined], whose numeric value [NaN] clamps to [0]. *)
Definition toUint8Clamp (v : option Z) : Z :=
  match v with
  | None => 0%Z
  | Some z => Z.max 0 (Z.min 255 z)
  end.

(** [arr[i]]: an out-of-range read is [undefined]. *)
Definition get (arr : list Z) (i : nat) : option Z := arr !! i.

(** [arr[i] = v]: the array never grows; an out-of-range write is dropped
    (this is also what stdpp's list insertion does). *)
Definition set (arr : list Z) (i : nat) (v : option Z) : list Z :=
  <[i := toUint8Clamp v]> arr.

End TypedArray.

(** ** Pixels, images, canvases *)

Record RGBA := mkRGBA { red : Z; green : Z; blue : Z; alpha : Z }.

Definition transparent : RGBA := mkRGBA 0 0 0 0.

Definition channels (p : RGBA) : list Z := [red p; green p; blue p; alpha p].

(** The pixel stored at column [x], row [y] of a row-major RGBA array of
    width [w]. *)
Definition pixel_at (w : nat) (d : list Z) (x y : nat) : RGBA :=
  let i := (y * w + x) * 4 in
  mkRGBA (default 0%Z (d !! i)) (default 0%Z (d !! (i + 1)))
         (default 0%Z (d !! (i + 2))) (default 0%Z (d !! (i + 3))).

(** A [w] by [h] array filled pixel by pixel, row-major. *)
Definition raster (w h : nat) (f : nat -> nat -> RGBA) : list Z :=
  flat_map (fun p => channels (f (p mod w) (p / w))) (seq 0 (w * h)).

(** The premultiplied surface. [quantize c a] is the colour value read
    back after the value [c] has been written under the alpha [a], for
    [0 < a < 255]: the library multiplies by [a / 255] to store and by
    [255 / a] to read, each time down to eight bits. That arithmetic is the
    library's, not the repository's, and is left open here. *)
Class Surface := {
  quantize : Z -> Z -> Z;
  quantize_byte : forall c a : Z, TypedArray.is_byte (quantize c a)
}.

(** A pixel as it reads back once written to a canvas. *)
Definition stored `{Surface} (p : RGBA) : RGBA :=
  if (alpha p =? 0)%Z then transparent
  else if (alpha p =? 255)%Z then p
  else mkRGBA (quantize (red p) (alpha p)) (quantize (green p) (alpha p))
              (quantize (blue p) (alpha p)) (alpha p).

(** A decoded image, as [loadImage] resolves it. It is never mutated. *)
Module Image.
Record t := mk { width : nat; height : nat; pixels : list Z }.
End Image.

Module ImageData.
Record t := mk { width : nat; height : nat; data : list Z }.
End ImageData.

Module Canvas.
Record t := mk { width : nat; height : nat; data : list Z }.

(** The invariant of the specification's image buffer: strictly positive
    dimensions, four channels per pixel, every channel a byte. *)
Definition wf (c : t) : Prop :=
  0 < width c /\ 0 < height c /\
  length (data c) = width c * height c * 4 /\
  Forall TypedArray.is_byte (data c).

(** One channel ([k = 0..3] for red, green, blue, alpha) of the pixel at
    column [x], row [y]. *)
Definition channel (c : t) (x y k : nat) : option Z :=
  data c !! ((y * width c + x) * 4 + k).
End Canvas.

(** ** The store and the effects of the program *)

(** A [Canvas] value of the program is a reference into the store. The
    store also keeps, under [files], the PNG streams the program has
    started, each with its path and the canvas it encodes. *)
Definition ref := nat.

Record World := mkWorld {
  canvases : list Canvas.t;
  files : list (string * Canvas.t)
}.

Inductive Exception :=
| LoadFailure (message : string)
| Error (message : string)
| IndexSizeError
| InvalidReference.

Inductive Outcome (A : Type) :=
| Returned (a : A) (s : World)
| Thrown (e : Exception) (s : World).
Arguments Returned {A} a s.
Arguments Thrown {A} e s.

Definition M (A : Type) : Type := World -> Outcome A.

#[global] Instance M_ret : MRet M := fun A a s => Returned a s.

#[global] Instance M_bind : MBind M := fun A B f m s =>
  match m s with
  | Returned a s' => f a s'
  | Thrown e s' => Thrown e s'
  end.

Definition throw {A} (e : Exception) : M A := fun s => Thrown e s.

(** [try { m } catch (error) { handler error }] *)
Definition try_catch {A} (m : M A) (handler : Exception -> M A) : M A :=
  fun s =>
    match m s with
    | Returned a s' => Returned a s'
    | Thrown e s' => handler e s'
    end.

(** The external collaborators: the decoder behind [loadImage] (a path
    resolves to an image or rejects with a message) and the resampling
    filter [drawImage] applies when it scales: [resample img dw dh x y] is
    the colour read back at destination pixel [(x, y)] of a [dw] by [dh]
    rendering on a fresh canvas. *)
Class Collaborators := {
  decode : string -> Image.t + string;
  resample : Image.t -> nat -> nat -> nat -> nat -> RGBA
}.

Module CanvasAPI.

(** Dereferencing. A reference the program holds always comes from
    [createCanvas]; [InvalidReference] marks the other, unreachable case. *)
Definition read (r : ref) : M Canvas.t := fun s =>
  match canvases s !! r with
  | Some c => Returned c s
  | None => Thrown InvalidReference s
  end.

Definition write_data (r : ref) (d : list Z) : M unit := fun s =>
  match canvases s !! r with
  | Some c =>
      Returned tt (mkWorld (<[r := Canvas.mk (Canvas.width c) (Canvas.height c) d]> (canvases s))
                           (files s))
  | None => Thrown InvalidReference s
  end.

(** [createCanvas(w, h)]: a new canvas, transparent black. *)
Definition createCanvas (w h : nat) : M ref := fun s =>
  Returned (length (canvases s))
           (mkWorld (canvases s ++ [Canvas.mk w h (replicate (w * h * 4) 0%Z)]) (files s)).

(** [loadImage(path)] *)
Definition loadImage `{Collaborators} (path : string) : M Image.t :=
  match decode path with
  | inl img => mret img
  | inr message => throw (LoadFailure message)
  end.

(** [dst.getContext('2d').drawImage(src, 0, 0)] with a canvas as source.
    The pixels of [src] land on [dst] unscaled; the part of [src] outside
    [dst] is clipped. Only drawing over transparent pixels is modelled (the
    program draws on a canvas it has just created), where source-over
    compositing leaves the source pixel. *)
Definition drawImage (dst src : ref) : M unit :=
  cs ← read src;
  cd ← read dst;
  write_data dst
    (raster (Canvas.width cd) (Canvas.height cd) (fun x y =>
       if (x <? Canvas.width cs) && (y <? Canvas.height cs)
       then pixel_at (Canvas.width cs) (Canvas.data cs) x y
       else pixel_at (Canvas.width cd) (Canvas.data cd) x y)).

(** [dst.getContext('2d').drawImage(img, 0, 0, dw, dh)] with a decoded
    image as source, scaled to [dw] by [dh]. *)
Definition drawImageScaled `{Collaborators} (dst : ref) (img : Image.t) (dw dh : nat) : M unit :=
  cd ← read dst;
  write_data dst
    (raster (Canvas.width cd) (Canvas.height cd) (fun x y =>
       if (x <? dw) && (y <? dh)
       then resample img dw dh x y
       else pixel_at (Canvas.width cd) (Canvas.data cd) x y)).

(** [c.getContext('2d').getImageData(0, 0, sw, sh)]: a fresh array holding
    a copy of the rectangle, transparent black outside the canvas. A zero
    width or height is an [IndexSizeError]. *)
Definition getImageData (r : ref) (sw sh : nat) : M ImageData.t :=
  c ← read r;
  if (sw =? 0) || (sh =? 0) then throw IndexSizeError
  else mret (ImageData.mk sw sh
               (raster sw sh (fun x y =>
                  if (x <? Canvas.width c) && (y <? Canvas.height c)
                  then pixel_at (Canvas.width c) (Canvas.data c) x y
                  else transparent))).

(** [c.getContext('2d').putImageData(imgData, 0, 0)]: the pixels of
    [imgData] replace those of the canvas, each as the surface keeps it. *)
Definition putImageData `{Surface} (r : ref) (imgData : ImageData.t) : M unit :=
  c ← read r;
  write_data r
    (raster (Canvas.width c) (Canvas.height c) (fun x y =>
       if (x <? ImageData.width imgData) && (y <? ImageData.height imgData)
       then stored (pixel_at (ImageData.width imgData) (ImageData.data imgData) x y)
       else pixel_at (Canvas.width c) (Canvas.data c) x y)).

(** [canvas.createPNGStream().pipe(fs.createWriteStream(filePath))]: a
    stream is started and the call returns; nothing is written yet and
    nothing can fail yet. The entry added to [files] is that pending
    stream: the path and the canvas to encode (the program does not touch
    the canvas afterwards). What becomes of it is [stream_end] below. *)
Definition pipePNG (filePath : string) (r : ref) : M unit :=
  c ← read r;
  ((fun s => Returned tt (mkWorld (canvases s) (files s ++ [(filePath, c)]))) : M unit).

End CanvasAPI.

(** ** The column loop of [combineImages]

    [w1], [h1] are [img1.width], [img1.height]; [w2] is [img2.width];
    [d1] is [imgData1.data] (mutated), [d2] is [imgData2.data] (read). *)

Section ColumnLoop.

Variables (w1 h1 w2 : nat) (d2 : list Z).

(** The body of the inner loop: three channel assignments. *)
Definition copy_rgb (x y : nat) (d1 : list Z) : list Z :=
  let i := (y * w1 + x) * 4 in
  let j := (y * w2 + x) * 4 in
  let d1 := TypedArray.set d1 i (TypedArray.get d2 j) in
  let d1 := TypedArray.set d1 (i + 1) (TypedArray.get d2 (j + 1)) in
  TypedArray.set d1 (i + 2) (TypedArray.get d2 (j + 2)).

(** [for (let y = 0; y < img1.height; y++) { ... }] *)
Definition rows_loop (x : nat) (d1 : list Z) : list Z :=
  foldl (fun d y => copy_rgb x y d) d1 (seq 0 h1).

(** The values taken by [x] in
    [for (let x = 0; x < img1.width; x += 2)], from [x] on. *)
Fixpoint columns_from (fuel x : nat) : list nat :=
  match fuel with
  | O => []
  | S fuel' => if x <? w1 then x :: columns_from fuel' (x + 2) else []
  end.

Definition columns : list nat := columns_from w1 0.

Definition columns_loop (d1 : list Z) : list Z :=
  foldl (fun d x => rows_loop x d) d1 columns.

(** What an assignment of the loop stores at flat index [n] of [d1]: the
    clamped read of [d2] at the same column, row and channel, the row
    offset taken with [w2]. *)
Definition picked (n : nat) : Z :=
  TypedArray.toUint8Clamp
    (d2 !! (((n / 4) / w1 * w2 + (n / 4) mod w1) * 4 + n mod 4)).

End ColumnLoop.

(** ** [combineImages] (the same text in all four source files) *)

Definition combineImages `{Surface} (img1 img2 : ref) : M ref :=
  c1 ← CanvasAPI.read img1;
  canvas ← CanvasAPI.createCanvas (Canvas.width c1) (Canvas.height c1);
  _ ← CanvasAPI.drawImage canvas img1;
  imgData1 ← CanvasAPI.getImageData canvas (Canvas.width c1) (Canvas.height c1);
  c2 ← CanvasAPI.read img2;
  imgData2 ← CanvasAPI.getImageData img2 (Canvas.width c2) (Canvas.height c2);
  let imgData1' :=
    ImageData.mk (ImageData.width imgData1) (ImageData.height imgData1)
      (columns_loop (Canvas.width c1) (Canvas.height c1) (Canvas.width c2)
         (ImageData.data imgData2) (ImageData.data imgData1)) in
  _ ← CanvasAPI.putImageData canvas imgData1';
  mret canvas.

Definition saveImage (filePath : string) (canvas : ref) : M unit :=
  CanvasAPI.pipePNG filePath canvas.

(** The canvas [combineImages] builds from the canvases behind [img1] and
    [img2]: the size of the first, its bytes after the loop as the surface
    keeps them. *)
Definition interleaved `{Surface} (c1 c2 : Canvas.t) : Canvas.t :=
  Canvas.mk (Canvas.width c1) (Canvas.height c1)
    (raster (Canvas.width c1) (Canvas.height c1) (fun x y =>
       stored
         (pixel_at (Canvas.width c1)
            (columns_loop (Canvas.width c1) (Canvas.height c1) (Canvas.width c2)
               (Canvas.data c2) (Canvas.data c1)) x y))).

(** A buffer the surface keeps as it is: every pixel opaque, or
    transparent black. *)
Definition solid (c : Canvas.t) : Prop :=
  forall x y, x < Canvas.width c -> y < Canvas.height c ->
    alpha (pixel_at (Canvas.width c) (Canvas.data c) x y) = 255%Z \/
    pixel_at (Canvas.width c) (Canvas.data c) x y = transparent.


Record Args := mkArgs {
  image1Path : string;
  image2Path : string;
  outputPath : string
}.

(** ** The stretch variant ([imageCombiner.ts] and its earlier form) *)

Module Stretch.

Definition message_of (e : Exception) : string :=
  match e with
  | LoadFailure message => message
  | Error message => message
  | IndexSizeError => "IndexSizeError"
  | InvalidReference => "InvalidReference"
  end.

(** [loadImageWithPath]: the decoder's rejection is rethrown as an [Error]
    that names the path. *)
Definition loadImageWithPath `{Collaborators} (filePath : string) : M Image.t :=
  try_catch (CanvasAPI.loadImage filePath)
    (fun error =>
       throw (Error ("Failed to load image from " +:+ filePath +:+ ": " +:+ message_of error))).

Definition loadAndResizeImage `{Collaborators}
    (filePath : string) (targetWidth targetHeight : nat) : M ref :=
  img ← loadImageWithPath filePath;
  canvas ← CanvasAPI.createCanvas targetWidth targetHeight;
  _ ← CanvasAPI.drawImageScaled canvas img targetWidth targetHeight;
  mret canvas.

Definition processImages `{Collaborators} `{Surface} (args : Args) : M unit :=
  img1 ← loadImageWithPath (image1Path args);
  img2 ← loadImageWithPath (image2Path args);
  let commonWidth := Nat.min (Image.width img1) (Image.width img2) in
  let commonHeight := Nat.min (Image.height img1) (Image.height img2) in
  img1Resized ← loadAndResizeImage (image1Path args) commonWidth commonHeight;
  img2Resized ← loadAndResizeImage (image2Path args) commonWidth commonHeight;
  imgCombined ← combineImages img1Resized img2Resized;
  saveImage (outputPath args) imgCombined.

End Stretch.

(** ** JavaScript numbers

    Widths and heights are integers and are kept as such; the quotient and
    the product the aspect-fit variant computes are binary64 operations. *)

Module Number.

(** The double holding the integer [n]: exact below [2^53], where every
    width and height of a canvas lies. *)
Definition of_nat (n : nat) : float :=
  PrimFloat.of_uint63 (Uint63.of_Z (Z.of_nat n)).

(** [Math.round]: the integer nearest to the exact value of the double,
    a tie going up. On an infinity or [NaN] the function returns [0],
    which is the size [createCanvas] makes of them. *)
Definition Math_round (x : float) : Z :=
  match Prim2SF x with
  | S754_finite s m e =>
      let sm := if s then Z.neg m else Z.pos m in
      if (0 <=? e)%Z then (sm * 2 ^ e)%Z
      else ((2 * sm + 2 ^ (- e)) / 2 ^ (1 - e))%Z
  | _ => 0%Z
  end.

End Number.

(** ** The aspect-fit variant ([imageCombiner.js] and its typed form) *)

Module AspectFit.

Definition loadAndResizeImage `{Collaborators}
    (path : string) (targetWidth targetHeight : nat) : M ref :=
  img ← CanvasAPI.loadImage path;
  let aspectRatio :=
    PrimFloat.div (Number.of_nat (Image.width img)) (Number.of_nat (Image.height img)) in
  let newWidth := Z.of_nat targetWidth in
  let newHeight := Z.of_nat targetHeight in
  let '(newWidth, newHeight) :=
    if PrimFloat.ltb PrimFloat.one aspectRatio
    then (newWidth,
          Number.Math_round (PrimFloat.div (Number.of_nat targetWidth) aspectRatio))
    else (Number.Math_round (PrimFloat.mul (Number.of_nat targetHeight) aspectRatio),
          newHeight) in
  canvas ← CanvasAPI.createCanvas (Z.to_nat newWidth) (Z.to_nat newHeight);
  _ ← CanvasAPI.drawImageScaled canvas img (Z.to_nat newWidth) (Z.to_nat newHeight);
  mret canvas.

End AspectFit.

(** ** The specification's formulas, for comparison with the code *)

Module Spec.

(** [round (p / q)] over the rationals, for [q > 0]: the floor of
    [p / q + 1/2]. *)
Definition round_ratio (p q : Z) : Z := ((2 * p + q) / (2 * q))%Z.

(** The aspect-fit dimensions with the quotient taken exactly:
    [(targetWidth, round (targetWidth * sourceHeight / sourceWidth))] when
    [sourceWidth / sourceHeight > 1], and
    [(round (targetHeight * sourceWidth / sourceHeight), targetHeight)]
    otherwise. *)
Definition exact_fit (sourceWidth sourceHeight targetWidth targetHeight : nat) : nat * nat :=
  if sourceHeight <? sourceWidth
  then (targetWidth,
        Z.to_nat (round_ratio (Z.of_nat targetWidth * Z.of_nat sourceHeight) (Z.of_nat sourceWidth)))
  else (Z.to_nat (round_ratio (Z.of_nat targetHeight * Z.of_nat sourceWidth) (Z.of_nat sourceHeight)),
        targetHeight).

(** The same sentence with [aspectRatio = sourceWidth / sourceHeight]
    computed first, every operation a binary64 one. *)
Definition double_fit (sourceWidth sourceHeight targetWidth targetHeight : nat) : nat * nat :=
  let aspectRatio := PrimFloat.div (Number.of_nat sourceWidth) (Number.of_nat sourceHeight) in
  if PrimFloat.ltb PrimFloat.one aspectRatio
  then (targetWidth,
        Z.to_nat (Number.Math_round (PrimFloat.div (Number.of_nat targetWidth) aspectRatio)))
  else (Z.to_nat (Number.Math_round (PrimFloat.mul (Number.of_nat targetHeight) aspectRatio)),
        targetHeight).

End Spec.

(** ** Concrete inputs *)

Module Examples.

Definition red_pixel : list Z := [255; 0; 0; 255]%Z.
Definition blue_pixel : list Z := [0; 0; 255; 255]%Z.

Definition red2x2 : Canvas.t :=
  Canvas.mk 2 2 (red_pixel ++ red_pixel ++ red_pixel ++ red_pixel).
Definition blue2x2 : Canvas.t :=
  Canvas.mk 2 2 (blue_pixel ++ blue_pixel ++ blue_pixel ++ blue_pixel).
Definition dot : Canvas.t := Canvas.mk 1 1 [1; 2; 3; 4]%Z.

Definition empty : World := mkWorld [] [].
Definition red_and_blue : World := mkWorld [red2x2; blue2x2] [].
Definition red_and_dot : World := mkWorld [red2x2; dot] [].

Definition grey (w h : nat) : Image.t := Image.mk w h (replicate (w * h * 4) 128%Z).

(** A decoder that knows four files, and a filter that paints every
    destination pixel opaque black. *)
Definition disk : Collaborators := {|
  decode := fun path =>
    if String.eqb path "wide.png" then inl (grey 18 7)
    else if String.eqb path "landscape.png" then inl (grey 2 1)
    else if String.eqb path "square.png" then inl (grey 5 5)
    else if String.eqb path "tall.png" then inl (grey 3 4)
    else inr "ENOENT"%string;
  resample := fun _ _ _ _ _ => mkRGBA 0 0 0 255
|}.

Definition args : Args := mkArgs "wide.png" "tall.png" "images/out.png".

(** A surface that truncates both ways: [c] under alpha [a] is kept as
    [c * a / 255] and read back as that times [255 / a]. The library's own
    arithmetic need not agree with it everywhere; at the one value used
    with it below, [199] under alpha [128], kept as [99] and read back as
    [197], it does. *)
Definition truncating : Surface := {|
  quantize := fun c a => Z.max 0 (Z.min 255 (c * a / 255 * 255 / a));
  quantize_byte := fun c a =>
    conj (Z.le_max_l 0 _)
         (Z.max_lub 0 _ 255 (Zle_bool_imp_le 0 255 eq_refl) (Z.le_min_l 255 _))
|}.

Definition clear1x1 : Canvas.t := Canvas.mk 1 1 [0; 0; 0; 0]%Z.
Definition red1x1 : Canvas.t := Canvas.mk 1 1 [255; 0; 0; 255]%Z.
Definition veil1x1 : Canvas.t := Canvas.mk 1 1 [199; 0; 0; 128]%Z.

Definition blue1x1 : Canvas.t := Canvas.mk 1 1 [0; 0; 255; 255]%Z.
Definition veil2x1 : Canvas.t := Canvas.mk 2 1 [199; 0; 0; 128; 0; 0; 0; 0]%Z.
Definition red2x1 : Canvas.t := Canvas.mk 2 1 [255; 0; 0; 255; 255; 0; 0; 255]%Z.

Definition clear_and_red : World := mkWorld [clear1x1; red1x1] [].
Definition veil_alone : World := mkWorld [veil1x1] [].
Definition veil_and_red : World := mkWorld [veil2x1; red2x1] [].
Definition red_and_blue_dot : World := mkWorld [red2x2; blue1x1] [].

(** A decoder of two flat images, an opaque red one and a blue one of
    alpha 128, and a filter that paints the colour of the image's first
    pixel. *)
Definition flat (w h : nat) (colour : list Z) : Image.t :=
  Image.mk w h (mjoin (replicate (w * h) colour)).

Definition palette : Collaborators := {|
  decode := fun path =>
    if String.eqb path "red.png" then inl (flat 2 3 [255; 0; 0; 255]%Z)
    else if String.eqb path "blue.png" then inl (flat 3 2 [0; 0; 255; 128]%Z)
    else inr "ENOENT"%string;
  resample := fun img _ _ _ _ => pixel_at (Image.width img) (Image.pixels img) 0 0
|}.

Definition palette_args : Args := mkArgs "blue.png" "red.png" "images/out.png".

End Examples.

(** ** The canvases the normalizers build *)



(** ** Strings of the command line

    Strings are byte strings. The two built-ins the program applies to
    file names compare ASCII text only. *)

Module JsString.

(** [s.endsWith(suffix)] *)
Fixpoint endsWith (s suffix : string) : bool :=
  if String.eqb s suffix then true
  else match s with
       | EmptyString => false
       | String _ s' => endsWith s' suffix
       end.

(** The case folding behind the [i] flag of a regular expression whose
    letters are ASCII: only [A]..[Z] change. *)
Definition fold_char (c : Ascii.ascii) : Ascii.ascii :=
  let n := Ascii.nat_of_ascii c in
  if (65 <=? n) && (n <=? 90) then Ascii.ascii_of_nat (n + 32) else c.

Fixpoint fold_case (s : string) : string :=
  match s with
  | EmptyString => EmptyString
  | String c s' => String (fold_char c) (fold_case s')
  end.

End JsString.

(** ** The host: paths, the [images] directory, the command line *)

Class Node := {
  path_join : string -> string -> string;
  path_resolve : list string -> string;
  readdirSync : string -> list string;
  can_open : string -> bool
}.



(** How the call of [run] settles: [process.exit(code)] after the lines
    printed by [console.log]; the promise of [run] resolved, with the
    errors whose message [console.error] printed; or that promise
    rejected. The streams started by then are in the store; each ends
    later, as [stream_end] says. *)
Inductive Ending :=
| ProcessExit (code : nat) (logged : list string) (s : World)
| Resolved (reported : list Exception) (s : World)
| Rejected (e : Exception) (s : World).

Definition usage : string :=
  "Not enough arguments. Usage: node program.js <image1_path> <image2_path> <output_filename>".

(** [process.argv[i]], read only after the length test. *)
Definition argv_at (argv : list string) (i : nat) : string :=
  default EmptyString (argv !! i).

(** *** The interactive program ([imageCombiner.ts]) *)

Module Interactive.

(** [new Args(image1Path, image2Path, outputPath)] *)
Definition new_Args `{Node} (image1Path image2Path outputPath : string) : Args :=
  mkArgs image1Path image2Path
    (path_resolve
       ["images";
        if JsString.endsWith outputPath ".png" then outputPath
        else outputPath +:+ ".png"]).

(** [file.match(/\.(jpg|jpeg|png)$/i)], as a truth value. *)
Definition is_image_file (file : string) : bool :=
  let folded := JsString.fold_case file in
  JsString.endsWith folded ".jpg" || JsString.endsWith folded ".jpeg"
  || JsString.endsWith folded ".png".

Definition getImageFiles `{Node} : list string :=
  let imageDir := path_resolve ["images"] in
  filter (fun file => is_image_file file = true) (readdirSync imageDir).

End Interactive.

(** *** The command-line stretch program (the earlier form of
    [imageCombiner.ts]) *)

Module StretchCli.

(** [new Args()]: [None] stands for the usage line and [process.exit(1)]. *)
Definition new_Args `{Node} (argv : list string) : option Args :=
  if length argv <? 5 then None
  else Some (mkArgs (argv_at argv 2) (argv_at argv 3)
                    (path_join "images" (argv_at argv 4))).

Definition run `{Node} `{Collaborators} `{Surface} (argv : list string) (s : World) : Ending :=
  match new_Args argv with
  | None => ProcessExit 1 [usage] s
  | Some args =>
      match Stretch.processImages args s with
      | Returned _ s' => Resolved [] s'
      | Thrown error s' => Resolved [error] s'
      end
  end.

End StretchCli.

(** *** The command-line aspect-fit program ([imageCombiner.js] and its
    typed form) *)

Module AspectFitCli.

Definition new_Args (argv : list string) : option Args :=
  if length argv <? 5 then None
  else Some (mkArgs (argv_at argv 2) (argv_at argv 3) (argv_at argv 4)).

(** The body of [run] after [new Args()]. *)
Definition pipeline `{Node} `{Collaborators} `{Surface} (args : Args) : M unit :=
  img1 ← AspectFit.loadAndResizeImage (image1Path args) 400 300;
  img2 ← AspectFit.loadAndResizeImage (image2Path args) 400 300;
  c1 ← CanvasAPI.read img1;
  c2 ← CanvasAPI.read img2;
  let commonWidth := Nat.min (Canvas.width c1) (Canvas.width c2) in
  let commonHeight := Nat.min (Canvas.height c1) (Canvas.height c2) in
  img1Resized ← AspectFit.loadAndResizeImage (image1Path args) commonWidth commonHeight;
  img2Resized ← AspectFit.loadAndResizeImage (image2Path args) commonWidth commonHeight;
  imgCombined ← combineImages img1Resized img2Resized;
  let outputPath := path_join "images" (outputPath args) in
  saveImage outputPath imgCombined.

Definition run `{Node} `{Collaborators} `{Surface} (argv : list string) (s : World) : Ending :=
  match new_Args argv with
  | None => ProcessExit 1 [usage] s
  | Some args =>
      match pipeline args s with
      | Returned _ s' => Resolved [] s'
      | Thrown error s' => Rejected error s'
      end
  end.

End AspectFitCli.

(** A host for the concrete inputs, which are plain file names: paths
    are joined with [/] below the directory [/work] (no [.] or [..] is
    resolved), the [images] directory has five entries, and only paths
    below that directory can be opened for writing. *)
Module Hosts.


Definition argv : list string :=
  ["node"; "imageCombiner.js"; "square.png"; "square.png"; "out.png"].

End Hosts.

(** * Properties *)

(** ** The embedding on the specification's scenarios *)

(** A 2x2 opaque red buffer interleaved with a 2x2 opaque blue one: column
    0 turns blue, column 1 stays red. *)
Example red_blue_scenario `{Surface} :
  combineImages 0 1 Examples.red_and_blue =
    Returned 2
      (mkWorld [Examples.red2x2; Examples.blue2x2;
                Canvas.mk 2 2 [0; 0; 255; 255; 255; 0; 0; 255;
                               0; 0; 255; 255; 255; 0; 0; 255]%Z] []).
Proof. vm_compute. reflexivity. Qed.

(** A 200x100 source in a 100x100 box comes out 100x50. *)
Example landscape_scenario : Spec.double_fit 200 100 100 100 = (100, 50).
Proof. vm_compute. reflexivity. Qed.

(** [Math.round] sends a tie upwards, also below zero. *)
Example Math_round_ties :
  Number.Math_round 2.5%float = 3%Z /\ Number.Math_round (-2.5)%float = (-2)%Z /\
  Number.Math_round 0.5%float = 1%Z /\ Number.Math_round (-0.5)%float = 0%Z /\
  Number.Math_round 7%float = 7%Z.
Proof. repeat split; vm_compute; reflexivity. Qed.

(** The loop visits the even columns. *)
Example columns_of_five : columns 5 = [0; 2; 4].
Proof. reflexivity. Qed.

(** ** Rasters *)

Lemma drop_four (d : list Z) (i : nat) :
  i + 4 <= length d ->
  drop i d =
    [default 0%Z (d !! i); default 0%Z (d !! (i + 1));
     default 0%Z (d !! (i + 2)); default 0%Z (d !! (i + 3))] ++ drop (i + 4) d.
Proof.
  intros Hlen.
  destruct (lookup_lt_is_Some_2 d i) as [a Ha]; [lia|].
  destruct (lookup_lt_is_Some_2 d (i + 1)) as [b Hb]; [lia|].
  destruct (lookup_lt_is_Some_2 d (i + 2)) as [c Hc]; [lia|].
  destruct (lookup_lt_is_Some_2 d (i + 3)) as [e He]; [lia|].
  rewrite Ha, Hb, Hc, He. simpl.
  rewrite (drop_S d a i Ha).
  replace (i + 1) with (S i) in Hb by lia. rewrite (drop_S d b (S i) Hb).
  replace (i + 2) with (S (S i)) in Hc by lia. rewrite (drop_S d c _ Hc).
  replace (i + 3) with (S (S (S i))) in He by lia. rewrite (drop_S d e _ He).
  replace (i + 4) with (S (S (S (S i)))) by lia. reflexivity.
Qed.

Lemma flat_pixels_drop (d : list Z) (n k : nat) :
  length d = (k + n) * 4 ->
  flat_map (fun p => channels (pixel_at 1 d 0 p)) (seq k n) = drop (k * 4) d.
Proof.
  revert k. induction n as [|n IH]; intros k Hlen; simpl.
  - rewrite drop_ge by lia. reflexivity.
  - rewrite IH by lia. unfold channels, pixel_at; simpl.
    rewrite (drop_four d (k * 4)) by lia.
    replace ((k * 1 + 0) * 4) with (k * 4) by lia.
    replace (k * 4 + 4) with (S k * 4) by lia. reflexivity.
Qed.

Lemma flat_map_ext_seq {A} (f g : nat -> list A) (k n : nat) :
  (forall p, k <= p < k + n -> f p = g p) ->
  flat_map f (seq k n) = flat_map g (seq k n).
Proof.
  revert k. induction n as [|n IH]; intros k Hfg; cbn [seq flat_map]; [reflexivity|].
  rewrite Hfg by lia. rewrite IH; [reflexivity|]. intros p Hp. apply Hfg. lia.
Qed.

Lemma raster_ext (w h : nat) (f g : nat -> nat -> RGBA) :
  (forall x y, x < w -> y < h -> f x y = g x y) ->
  raster w h f = raster w h g.
Proof.
  intros Hfg. unfold raster.
  apply flat_map_ext_seq. intros p Hp.
  assert (0 < w) by (destruct w; simpl in *; lia).
  rewrite Hfg; [reflexivity | apply Nat.mod_upper_bound; lia |].
  apply Nat.Div0.div_lt_upper_bound; lia.
Qed.

Lemma raster_pixel_at (w h : nat) (d : list Z) :
  length d = w * h * 4 ->
  raster w h (pixel_at w d) = d.
Proof.
  intros Hlen. unfold raster.
  transitivity (flat_map (fun p => channels (pixel_at 1 d 0 p)) (seq 0 (w * h))).
  - apply flat_map_ext_seq. intros p Hp.
    unfold pixel_at.
    replace (p / w * w + p mod w) with p
      by (rewrite (Nat.div_mod_eq p w) at 1; lia).
    replace (p * 1 + 0) with p by lia. reflexivity.
  - rewrite flat_pixels_drop by lia. reflexivity.
Qed.

Lemma raster_clip (w h w' h' : nat) (d : list Z) (g : nat -> nat -> RGBA) :
  length d = w * h * 4 -> w <= w' -> h <= h' ->
  raster w h (fun x y => if (x <? w') && (y <? h') then pixel_at w d x y else g x y) = d.
Proof.
  intros Hlen Hw Hh.
  rewrite (raster_ext w h _ (pixel_at w d)); [apply raster_pixel_at; exact Hlen|].
  intros x y Hx Hy.
  destruct (Nat.ltb_spec x w'); [|lia].
  destruct (Nat.ltb_spec y h'); [|lia]. reflexivity.
Qed.

(** ** The column loop *)

Section ColumnLoopFacts.

Variables (w1 h1 w2 : nat) (d2 : list Z).

Lemma cell_split (x y q : nat) :
  x < w1 -> (q = y * w1 + x <-> q mod w1 = x /\ q / w1 = y).
Proof.
  intros Hx. split.
  - intros ->. split.
    + rewrite Nat.add_comm, Nat.Div0.mod_add. apply Nat.mod_small; exact Hx.
    + rewrite Nat.div_add_l by lia. rewrite Nat.div_small by exact Hx. lia.
  - intros [<- <-]. rewrite (Nat.div_mod_eq q w1) at 1. lia.
Qed.

Lemma copy_rgb_length (x y : nat) (d : list Z) :
  length (copy_rgb w1 w2 d2 x y d) = length d.
Proof. unfold copy_rgb, TypedArray.set. rewrite !length_insert. reflexivity. Qed.

Lemma copy_rgb_lookup (x y : nat) (d : list Z) (n : nat) :
  x < w1 ->
  copy_rgb w1 w2 d2 x y d !! n =
    if decide (n / 4 = y * w1 + x /\ n mod 4 < 3 /\ n < length d)
    then Some (picked w1 w2 d2 n) else d !! n.
Proof.
  intros Hx.
  pose proof (Nat.div_mod_eq n 4) as Hn.
  pose proof (Nat.mod_upper_bound n 4 ltac:(lia)) as Hr.
  unfold copy_rgb, TypedArray.set, TypedArray.get.
  rewrite !list_lookup_insert, !length_insert.
  destruct (decide (n / 4 = y * w1 + x /\ n mod 4 < 3 /\ n < length d))
    as [(Hq & Hk & Hlen)|Hno].
  - unfold picked.
    destruct (proj1 (cell_split x y (n / 4) Hx) Hq) as [-> ->].
    repeat case_decide; try lia.
    + do 2 f_equal. f_equal. lia.
    + do 2 f_equal. f_equal. lia.
    + do 2 f_equal. f_equal. lia.
  - repeat case_decide; try reflexivity; exfalso; apply Hno; lia.
Qed.

Lemma rows_lookup (x : nat) (ys : list nat) (d : list Z) (n : nat) :
  x < w1 ->
  foldl (fun d y => copy_rgb w1 w2 d2 x y d) d ys !! n =
    if decide ((n / 4) mod w1 = x /\ (n / 4) / w1 ∈ ys /\ n mod 4 < 3 /\ n < length d)
    then Some (picked w1 w2 d2 n) else d !! n.
Proof.
  intros Hx. revert d. induction ys as [|y ys IH]; intros d; cbn [foldl].
  - case_decide as H; [|reflexivity]. destruct H as (_ & H & _). inversion H.
  - rewrite IH, copy_rgb_length, copy_rgb_lookup by exact Hx.
    pose proof (cell_split x y (n / 4) Hx) as Hsplit.
    destruct (decide ((n / 4) mod w1 = x /\ (n / 4) / w1 ∈ ys /\ n mod 4 < 3 /\ n < length d))
      as [(Hc & Hr & Hk & Hlen)|Hno].
    + rewrite decide_True; [reflexivity|]. repeat split; try assumption.
      apply elem_of_cons. right; exact Hr.
    + destruct (decide (n / 4 = y * w1 + x /\ n mod 4 < 3 /\ n < length d))
        as [(Hq & Hk & Hlen)|Hno'].
      * rewrite decide_True; [reflexivity|]. apply Hsplit in Hq as [Hc Hr].
        repeat split; try assumption. apply elem_of_cons. left; exact Hr.
      * rewrite decide_False; [reflexivity|]. intros (Hc & Hr & Hk & Hlen).
        apply elem_of_cons in Hr as [Hr|Hr].
        -- apply Hno'. repeat split; try assumption. apply Hsplit. split; congruence.
        -- apply Hno. repeat split; assumption.
Qed.

Lemma rows_loop_length (x : nat) (d : list Z) :
  length (rows_loop w1 h1 w2 d2 x d) = length d.
Proof.
  unfold rows_loop. generalize (seq 0 h1). intros ys. revert d.
  induction ys as [|y ys IH]; intros d; cbn [foldl]; [reflexivity|].
  rewrite IH. apply copy_rgb_length.
Qed.

Lemma columns_lookup (xs : list nat) (d : list Z) (n : nat) :
  Forall (fun x => x < w1) xs ->
  foldl (fun d x => rows_loop w1 h1 w2 d2 x d) d xs !! n =
    if decide ((n / 4) mod w1 ∈ xs /\ (n / 4) / w1 < h1 /\ n mod 4 < 3 /\ n < length d)
    then Some (picked w1 w2 d2 n) else d !! n.
Proof.
  intros Hxs. revert d. induction Hxs as [|x xs Hx Hxs IH]; intros d; cbn [foldl].
  - case_decide as H; [|reflexivity]. destruct H as (H & _). inversion H.
  - rewrite IH, rows_loop_length. unfold rows_loop. rewrite rows_lookup by exact Hx.
    destruct (decide ((n / 4) mod w1 ∈ xs /\ (n / 4) / w1 < h1 /\ n mod 4 < 3 /\ n < length d))
      as [(Hc & Hr & Hk & Hlen)|Hno].
    + rewrite decide_True; [reflexivity|]. repeat split; try assumption.
      apply elem_of_cons. right; exact Hc.
    + destruct (decide ((n / 4) mod w1 = x /\ (n / 4) / w1 ∈ seq 0 h1
                        /\ n mod 4 < 3 /\ n < length d))
        as [(Hc & Hr & Hk & Hlen)|Hno'].
      * rewrite decide_True; [reflexivity|]. apply elem_of_seq in Hr.
        repeat split; try assumption; try lia. apply elem_of_cons. left; exact Hc.
      * rewrite decide_False; [reflexivity|]. intros (Hc & Hr & Hk & Hlen).
        apply elem_of_cons in Hc as [Hc|Hc].
        -- apply Hno'. repeat split; try assumption. apply elem_of_seq. lia.
        -- apply Hno. repeat split; assumption.
Qed.

Lemma columns_from_spec (fuel x0 x : nat) :
  x ∈ columns_from w1 fuel x0 <-> x < w1 /\ exists k, k < fuel /\ x = x0 + 2 * k.
Proof.
  revert x0. induction fuel as [|fuel IH]; intros x0; simpl.
  - split; [intros H; inversion H | intros (_ & k & Hk & _); lia].
  - destruct (Nat.ltb_spec x0 w1) as [Hlt|Hge].
    + rewrite elem_of_cons, IH. split.
      * intros [->|(Hx & k & Hk & ->)].
        -- split; [exact Hlt|]. exists 0. lia.
        -- split; [exact Hx|]. exists (S k). lia.
      * intros (Hx & k & Hk & ->). destruct k as [|k]; [left; lia|].
        right. split; [exact Hx|]. exists k. lia.
    + split; [intros H; inversion H | intros (Hx & k & Hk & ->); lia].
Qed.

Lemma columns_spec (x : nat) :
  x ∈ columns w1 <-> x < w1 /\ Nat.even x = true.
Proof.
  unfold columns. rewrite columns_from_spec. split.
  - intros (Hx & k & _ & ->). split; [exact Hx|].
    rewrite Nat.add_0_l, Nat.even_mul. reflexivity.
  - intros (Hx & Hev). split; [exact Hx|].
    apply Nat.even_spec in Hev as [k ->]. exists k. lia.
Qed.

Lemma columns_loop_length (d1 : list Z) :
  length (columns_loop w1 h1 w2 d2 d1) = length d1.
Proof.
  unfold columns_loop. generalize (columns w1). intros xs. revert d1.
  induction xs as [|x xs IH]; intros d1; cbn [foldl]; [reflexivity|].
  rewrite IH. apply rows_loop_length.
Qed.

Lemma columns_loop_lookup (d1 : list Z) (n : nat) :
  length d1 = w1 * h1 * 4 -> n < length d1 ->
  columns_loop w1 h1 w2 d2 d1 !! n =
    if Nat.even ((n / 4) mod w1) && (n mod 4 <? 3)
    then Some (picked w1 w2 d2 n) else d1 !! n.
Proof.
  intros Hlen Hn. unfold columns_loop.
  rewrite columns_lookup
    by (apply Forall_forall; intros x Hx; apply columns_spec in Hx; tauto).
  assert (0 < w1) by (destruct w1; simpl in *; lia).
  assert ((n / 4) / w1 < h1).
  { apply Nat.Div0.div_lt_upper_bound. apply Nat.Div0.div_lt_upper_bound. lia. }
  assert ((n / 4) mod w1 < w1) by (apply Nat.mod_upper_bound; lia).
  destruct (Nat.even ((n / 4) mod w1)) eqn:Hev; destruct (Nat.ltb_spec (n mod 4) 3); cbn [andb].
  - rewrite decide_True; [reflexivity|]. repeat split; try assumption.
    apply columns_spec. split; assumption.
  - rewrite decide_False; [reflexivity|]. intros (_ & _ & ? & _). lia.
  - rewrite decide_False; [reflexivity|]. intros (Hc & _).
    apply columns_spec in Hc as [_ Hc]. congruence.
  - rewrite decide_False; [reflexivity|]. intros (_ & _ & ? & _). lia.
Qed.

Lemma columns_loop_channel (d1 : list Z) (x y k : nat) :
  length d1 = w1 * h1 * 4 -> x < w1 -> y < h1 -> k < 4 ->
  columns_loop w1 h1 w2 d2 d1 !! ((y * w1 + x) * 4 + k) =
    if Nat.even x && (k <? 3)
    then Some (TypedArray.toUint8Clamp (d2 !! ((y * w2 + x) * 4 + k)))
    else d1 !! ((y * w1 + x) * 4 + k).
Proof.
  intros Hlen Hx Hy Hk.
  assert (Hq : ((y * w1 + x) * 4 + k) / 4 = y * w1 + x).
  { rewrite Nat.div_add_l by lia. rewrite (Nat.div_small k 4) by lia. lia. }
  assert (Hr : ((y * w1 + x) * 4 + k) mod 4 = k).
  { rewrite Nat.add_comm, Nat.Div0.mod_add. apply Nat.mod_small; lia. }
  destruct (proj1 (cell_split x y _ Hx) eq_refl) as [Hc Hrow].
  assert (Hcell : y * w1 + x < w1 * h1).
  { apply Nat.lt_le_trans with (S y * w1); [simpl; lia|].
    rewrite (Nat.mul_comm w1 h1). apply Nat.mul_le_mono_r. lia. }
  rewrite columns_loop_lookup; [|exact Hlen|lia].
  unfold picked. rewrite Hq, Hr, Hc, Hrow. reflexivity.
Qed.

End ColumnLoopFacts.

(** ** Pixels of a raster and of the loop's array *)

Lemma flat_map_blocks_lookup (g : nat -> list Z) (n a p k : nat) :
  (forall q, length (g q) = 4) -> p < n -> k < 4 ->
  flat_map g (seq a n) !! (p * 4 + k) = g (a + p) !! k.
Proof.
  intros Hg. revert a p. induction n as [|n IH]; intros a p Hp Hk; [lia|].
  cbn [seq flat_map]. destruct p as [|p].
  - rewrite lookup_app_l by (rewrite Hg; lia). rewrite Nat.add_0_r. reflexivity.
  - rewrite lookup_app_r by (rewrite Hg; lia). rewrite Hg.
    replace (S p * 4 + k - 4) with (p * 4 + k) by lia.
    rewrite IH by lia. replace (S a + p) with (a + S p) by lia. reflexivity.
Qed.

Lemma raster_lookup (w h : nat) (f : nat -> nat -> RGBA) (x y k : nat) :
  x < w -> y < h -> k < 4 ->
  raster w h f !! ((y * w + x) * 4 + k) = channels (f x y) !! k.
Proof.
  intros Hx Hy Hk. unfold raster.
  rewrite flat_map_blocks_lookup; [| reflexivity | | exact Hk].
  - cbn [Nat.add].
    destruct (proj1 (cell_split w x y (y * w + x) Hx) eq_refl) as [-> ->]. reflexivity.
  - apply Nat.lt_le_trans with (S y * w); [simpl; lia|].
    rewrite (Nat.mul_comm w h). apply Nat.mul_le_mono_r. lia.
Qed.

Lemma raster_bytes (w h : nat) (f : nat -> nat -> RGBA) :
  (forall x y, Forall TypedArray.is_byte (channels (f x y))) ->
  Forall TypedArray.is_byte (raster w h f).
Proof.
  intros Hf. unfold raster. induction (seq 0 (w * h)) as [|p l IH]; cbn [flat_map].
  - constructor.
  - apply Forall_app. split; [apply Hf | exact IH].
Qed.

Lemma raster_length (w h : nat) (f : nat -> nat -> RGBA) :
  length (raster w h f) = w * h * 4.
Proof.
  unfold raster.
  assert (Hall : forall l : list nat,
            length (flat_map (fun p => channels (f (p mod w) (p / w))) l) = length l * 4).
  { induction l as [|p l IH]; cbn [flat_map]; [reflexivity|].
    rewrite length_app, IH. cbn [channels length]. lia. }
  rewrite Hall, length_seq. reflexivity.
Qed.

Lemma pixel_at_raster (w h : nat) (f : nat -> nat -> RGBA) (x y : nat) :
  x < w -> y < h -> pixel_at w (raster w h f) x y = f x y.
Proof.
  intros Hx Hy. unfold pixel_at. cbv zeta.
  rewrite <- (Nat.add_0_r ((y * w + x) * 4)) at 1.
  rewrite !raster_lookup by (assumption || lia).
  destruct (f x y); reflexivity.
Qed.

Lemma pixel_ext (w h : nat) (d d' : list Z) :
  length d = w * h * 4 -> length d' = w * h * 4 ->
  (forall x y, x < w -> y < h -> pixel_at w d x y = pixel_at w d' x y) ->
  d = d'.
Proof.
  intros Hd Hd' Hpx.
  rewrite <- (raster_pixel_at w h d Hd), <- (raster_pixel_at w h d' Hd').
  apply raster_ext, Hpx.
Qed.

Lemma pixel_at_bytes (w : nat) (d : list Z) (x y : nat) :
  Forall TypedArray.is_byte d ->
  Forall TypedArray.is_byte (channels (pixel_at w d x y)).
Proof.
  intros Hd.
  assert (Hj : forall j, TypedArray.is_byte (default 0%Z (d !! j))).
  { intros j. destruct (d !! j) as [v|] eqn:Hv; simpl.
    - exact (Forall_lookup_1 _ _ _ _ Hd Hv).
    - unfold TypedArray.is_byte. lia. }
  unfold pixel_at, channels. cbn [red green blue alpha].
  repeat (apply Forall_cons; split; [apply Hj|]). constructor.
Qed.

Lemma stored_bytes `{Surface} (p : RGBA) :
  Forall TypedArray.is_byte (channels p) ->
  Forall TypedArray.is_byte (channels (stored p)).
Proof.
  intros Hp. unfold stored.
  destruct (alpha p =? 0)%Z; [repeat constructor; unfold TypedArray.is_byte; simpl; lia|].
  destruct (alpha p =? 255)%Z; [exact Hp|].
  assert (Ha : TypedArray.is_byte (alpha p))
    by (apply (Forall_lookup_1 _ _ 3 _ Hp); reflexivity).
  unfold channels. cbn [red green blue alpha].
  repeat (apply Forall_cons; split; [apply quantize_byte|]).
  apply Forall_cons; split; [exact Ha | constructor].
Qed.

Lemma stored_alpha `{Surface} (p : RGBA) : alpha (stored p) = alpha p.
Proof.
  unfold stored. destruct (Z.eqb_spec (alpha p) 0) as [E|_]; [symmetry; exact E|].
  destruct (alpha p =? 255)%Z; reflexivity.
Qed.

Lemma stored_opaque `{Surface} (p : RGBA) : alpha p = 255%Z -> stored p = p.
Proof. intros E. unfold stored. rewrite E. reflexivity. Qed.

Lemma stored_transparent `{Surface} (p : RGBA) : alpha p = 0%Z -> stored p = transparent.
Proof. intros E. unfold stored. rewrite E. reflexivity. Qed.

Lemma clamp_is_byte (v : option Z) : TypedArray.is_byte (TypedArray.toUint8Clamp v).
Proof. destruct v as [z|]; unfold TypedArray.is_byte; simpl; lia. Qed.

Lemma clamp_lookup (d : list Z) (j : nat) :
  Forall TypedArray.is_byte d ->
  TypedArray.toUint8Clamp (d !! j) = default 0%Z (d !! j).
Proof.
  intros Hd. destruct (d !! j) as [v|] eqn:Hj; [|reflexivity].
  pose proof (Forall_lookup_1 _ _ _ _ Hd Hj) as Hv.
  unfold TypedArray.is_byte in Hv. simpl. lia.
Qed.

Lemma copy_rgb_bytes (w1 w2 : nat) (d2 d : list Z) (x y : nat) :
  Forall TypedArray.is_byte d -> Forall TypedArray.is_byte (copy_rgb w1 w2 d2 x y d).
Proof.
  intros Hd. unfold copy_rgb, TypedArray.set.
  repeat apply Forall_insert; auto using clamp_is_byte.
Qed.

Lemma columns_loop_bytes (w1 h1 w2 : nat) (d2 d1 : list Z) :
  Forall TypedArray.is_byte d1 ->
  Forall TypedArray.is_byte (columns_loop w1 h1 w2 d2 d1).
Proof.
  unfold columns_loop. generalize (columns w1). intros xs. revert d1.
  induction xs as [|x xs IHx]; intros d1 Hd; cbn [foldl]; [exact Hd|].
  apply IHx. unfold rows_loop. generalize (seq 0 h1). intros ys.
  revert d1 Hd. induction ys as [|y ys IHy]; intros d1 Hd; cbn [foldl]; [exact Hd|].
  apply IHy, copy_rgb_bytes, Hd.
Qed.

Lemma columns_loop_pixel (w1 h1 w2 : nat) (d2 d1 : list Z) (x y : nat) :
  length d1 = w1 * h1 * 4 -> Forall TypedArray.is_byte d2 ->
  x < w1 -> y < h1 ->
  pixel_at w1 (columns_loop w1 h1 w2 d2 d1) x y =
    if Nat.even x
    then mkRGBA (red (pixel_at w2 d2 x y)) (green (pixel_at w2 d2 x y))
                (blue (pixel_at w2 d2 x y)) (alpha (pixel_at w1 d1 x y))
    else pixel_at w1 d1 x y.
Proof.
  intros Hlen Hbytes Hx Hy. unfold pixel_at. cbv zeta. cbn [red green blue alpha].
  rewrite <- (Nat.add_0_r ((y * w1 + x) * 4)) at 1 5.
  rewrite !columns_loop_channel by (assumption || lia).
  rewrite !clamp_lookup by exact Hbytes.
  rewrite !Nat.add_0_r.
  destruct (Nat.even x); reflexivity.
Qed.

(** ** Running the canvas operations *)

Lemma bind_returned {A B} (m : M A) (f : A -> M B) (s s' : World) (a : A) :
  m s = Returned a s' -> (m ≫= f) s = f a s'.
Proof. intros H. unfold mbind, M_bind. rewrite H. reflexivity. Qed.

Lemma bind_thrown {A B} (m : M A) (f : A -> M B) (s s' : World) (e : Exception) :
  m s = Thrown e s' -> (m ≫= f) s = Thrown e s'.
Proof. intros H. unfold mbind, M_bind. rewrite H. reflexivity. Qed.

Lemma read_returned (r : ref) (s : World) (c : Canvas.t) :
  canvases s !! r = Some c -> CanvasAPI.read r s = Returned c s.
Proof. intros H. unfold CanvasAPI.read. rewrite H. reflexivity. Qed.

Lemma write_data_returned (r : ref) (d : list Z) (s : World) (c : Canvas.t) :
  canvases s !! r = Some c ->
  CanvasAPI.write_data r d s =
    Returned tt (mkWorld (<[r := Canvas.mk (Canvas.width c) (Canvas.height c) d]> (canvases s))
                         (files s)).
Proof. intros H. unfold CanvasAPI.write_data. rewrite H. reflexivity. Qed.

Lemma getImageData_whole (r : ref) (s : World) (c : Canvas.t) :
  canvases s !! r = Some c ->
  0 < Canvas.width c -> 0 < Canvas.height c ->
  length (Canvas.data c) = Canvas.width c * Canvas.height c * 4 ->
  CanvasAPI.getImageData r (Canvas.width c) (Canvas.height c) s =
    Returned (ImageData.mk (Canvas.width c) (Canvas.height c) (Canvas.data c)) s.
Proof.
  intros Hr Hw Hh Hlen. unfold CanvasAPI.getImageData.
  rewrite (bind_returned _ _ _ _ _ (read_returned _ _ _ Hr)).
  destruct (Nat.eqb_spec (Canvas.width c) 0); [lia|].
  destruct (Nat.eqb_spec (Canvas.height c) 0); [lia|].
  cbn [orb]. unfold mret, M_ret.
  rewrite raster_clip by (exact Hlen || lia). reflexivity.
Qed.

Lemma putImageData_whole `{Surface} (r : ref) (s : World) (c : Canvas.t) (d : list Z) :
  canvases s !! r = Some c ->
  CanvasAPI.putImageData r (ImageData.mk (Canvas.width c) (Canvas.height c) d) s =
    Returned tt
      (mkWorld (<[r := Canvas.mk (Canvas.width c) (Canvas.height c)
                         (raster (Canvas.width c) (Canvas.height c)
                            (fun x y => stored (pixel_at (Canvas.width c) d x y)))]>
                  (canvases s))
               (files s)).
Proof.
  intros Hr. unfold CanvasAPI.putImageData.
  rewrite (bind_returned _ _ _ _ _ (read_returned _ _ _ Hr)).
  rewrite (write_data_returned _ _ _ _ Hr).
  cbn [ImageData.width ImageData.height ImageData.data].
  do 4 f_equal. apply raster_ext. intros x y Hx Hy.
  destruct (Nat.ltb_spec x (Canvas.width c)); [|lia].
  destruct (Nat.ltb_spec y (Canvas.height c)); [|lia]. reflexivity.
Qed.

Lemma combineImages_returned `{Surface} (s : World) (img1 img2 : ref) (c1 c2 : Canvas.t) :
  canvases s !! img1 = Some c1 -> canvases s !! img2 = Some c2 ->
  0 < Canvas.width c1 -> 0 < Canvas.height c1 ->
  length (Canvas.data c1) = Canvas.width c1 * Canvas.height c1 * 4 ->
  0 < Canvas.width c2 -> 0 < Canvas.height c2 ->
  length (Canvas.data c2) = Canvas.width c2 * Canvas.height c2 * 4 ->
  combineImages img1 img2 s =
    Returned (length (canvases s))
             (mkWorld (canvases s ++ [interleaved c1 c2]) (files s)).
Proof.
  intros H1 H2 Hw1 Hh1 Hl1 Hw2 Hh2 Hl2.
  pose proof (lookup_lt_Some _ _ _ H1) as Hlt1.
  pose proof (lookup_lt_Some _ _ _ H2) as Hlt2.
  unfold combineImages.
  rewrite (bind_returned _ _ _ _ _ (read_returned _ _ _ H1)).
  (* createCanvas *)
  erewrite bind_returned by reflexivity.
  set (blank := Canvas.mk _ _ (replicate _ _)).
  set (n := length (canvases s)).
  (* drawImage *)
  assert (Hdraw : CanvasAPI.drawImage n img1 (mkWorld (canvases s ++ [blank]) (files s)) =
            Returned tt (mkWorld (canvases s ++
               [Canvas.mk (Canvas.width c1) (Canvas.height c1) (Canvas.data c1)]) (files s))).
  { unfold CanvasAPI.drawImage.
    erewrite bind_returned
      by (apply read_returned; cbn [canvases]; rewrite lookup_app_l by exact Hlt1; exact H1).
    erewrite bind_returned
      by (apply read_returned; cbn [canvases]; apply list_lookup_middle; reflexivity).
    erewrite write_data_returned
      by (cbn [canvases]; apply list_lookup_middle; reflexivity).
    cbn [canvases files Canvas.width Canvas.height blank].
    rewrite raster_clip by (exact Hl1 || lia).
    replace n with (length (canvases s) + 0) by (unfold n; lia).
    rewrite insert_app_r. reflexivity. }
  rewrite (bind_returned _ _ _ _ _ Hdraw). clear Hdraw.
  set (copy := Canvas.mk (Canvas.width c1) (Canvas.height c1) (Canvas.data c1)).
  assert (Hn : canvases (mkWorld (canvases s ++ [copy]) (files s)) !! n = Some copy).
  { cbn [canvases]. apply list_lookup_middle. reflexivity. }
  rewrite (bind_returned _ _ _ _ _
             (getImageData_whole n _ copy Hn Hw1 Hh1 Hl1)).
  assert (H2' : canvases (mkWorld (canvases s ++ [copy]) (files s)) !! img2 = Some c2).
  { cbn [canvases]. rewrite lookup_app_l by exact Hlt2. exact H2. }
  rewrite (bind_returned _ _ _ _ _ (read_returned _ _ _ H2')).
  rewrite (bind_returned _ _ _ _ _ (getImageData_whole img2 _ c2 H2' Hw2 Hh2 Hl2)).
  cbn [ImageData.width ImageData.height ImageData.data copy Canvas.width Canvas.height
       Canvas.data].
  erewrite bind_returned by (apply (putImageData_whole n _ copy); exact Hn).
  unfold mret, M_ret.
  cbn [copy Canvas.width Canvas.height Canvas.data canvases files].
  replace n with (length (canvases s) + 0) by (unfold n; lia).
  rewrite insert_app_r. reflexivity.
Qed.

(** ** Binary64 facts *)

Section Binary64.

Local Open Scope Z_scope.

Lemma digits2_pos_lower (p : positive) :
  2 ^ (Z.pos (digits2_pos p) - 1) <= Z.pos p.
Proof.
  induction p as [p IH|p IH|]; cbn [digits2_pos].
  - rewrite Pos2Z.inj_succ. replace (Z.succ (Z.pos (digits2_pos p)) - 1)
      with (Z.succ (Z.pos (digits2_pos p) - 1)) by lia.
    rewrite Z.pow_succ_r by lia. lia.
  - rewrite Pos2Z.inj_succ. replace (Z.succ (Z.pos (digits2_pos p)) - 1)
      with (Z.succ (Z.pos (digits2_pos p) - 1)) by lia.
    rewrite Z.pow_succ_r by lia. lia.
  - simpl. lia.
Qed.

Lemma digits2_pos_small (p : positive) :
  Z.pos p < 2 ^ 53 -> Z.pos (digits2_pos p) <= 53.
Proof.
  intros Hp. destruct (Z_le_gt_dec (Z.pos (digits2_pos p)) 53) as [H|H]; [exact H|].
  exfalso. pose proof (digits2_pos_lower p) as Hlow.
  assert (2 ^ 53 <= 2 ^ (Z.pos (digits2_pos p) - 1)) by (apply Z.pow_le_mono_r; lia).
  lia.
Qed.

Lemma digits2_pos_iter (p k : positive) :
  Z.pos (digits2_pos (Pos.iter xO p k)) = Z.pos (digits2_pos p) + Z.pos k.
Proof.
  induction k as [|k IH] using Pos.peano_ind.
  - cbn [Pos.iter digits2_pos]. lia.
  - rewrite Pos.iter_succ. cbn [digits2_pos]. lia.
Qed.

Lemma pos_iter_value (p k : positive) :
  Z.pos (Pos.iter xO p k) = Z.pos p * 2 ^ Z.pos k.
Proof.
  induction k as [|k IH] using Pos.peano_ind.
  - cbn [Pos.iter]. lia.
  - rewrite Pos.iter_succ, Pos2Z.inj_xO, IH, Pos2Z.inj_succ, Z.pow_succ_r by lia. lia.
Qed.

Lemma shr_fexp_canonical (m : positive) (e : Z) :
  canonical_mantissa prec emax m e = true ->
  shr_fexp prec emax (Z.pos m) e loc_Exact = (Build_shr_record (Z.pos m) false false, e).
Proof.
  unfold canonical_mantissa. intros H%Z.eqb_eq.
  unfold shr_fexp. cbn [Zdigits2 shr_record_of_loc]. rewrite H, Z.sub_diag. reflexivity.
Qed.

Lemma binary_round_aux_canonical (s : bool) (m : positive) (e : Z) :
  canonical_mantissa prec emax m e = true -> e <= emax - prec ->
  binary_round_aux prec emax s (Z.pos m) e loc_Exact = S754_finite s m e.
Proof.
  intros Hc He. unfold binary_round_aux.
  rewrite (shr_fexp_canonical m e Hc).
  cbn [shr_m loc_of_shr_record round_nearest_even].
  rewrite (shr_fexp_canonical m e Hc). cbn [shr_m].
  apply Z.leb_le in He. rewrite He. reflexivity.
Qed.

(** The double of a positive integer below [2^53] is that integer. *)
Lemma of_nat_exact (n : nat) :
  (0 < n)%nat -> Z.of_nat n < 2 ^ 53 ->
  exists m e, Prim2SF (Number.of_nat n) = S754_finite false m e /\
              -52 <= e <= 0 /\ Z.pos m = Z.of_nat n * 2 ^ (- e).
Proof.
  intros Hpos Hlt. unfold Number.of_nat.
  rewrite of_uint63_spec, Uint63.of_Z_spec.
  rewrite Z.mod_small
    by (split; [lia|]; apply Z.lt_trans with (2 ^ 53); [exact Hlt | reflexivity]).
  destruct (Z.of_nat n) as [|p|p] eqn:Hn; [lia| |lia].
  cbn [binary_normalize]. unfold binary_round.
  pose proof (digits2_pos_small p Hlt) as Hd.
  assert (Hfexp : forall d, 1 <= d -> fexp prec emax d = d - 53).
  { intros d Hd1. unfold fexp, SpecFloat.emin, prec, emax. lia. }
  rewrite Z.add_0_r, Hfexp by lia.
  unfold shl_align. rewrite Z.sub_0_r.
  destruct (Z.pos (digits2_pos p) - 53) as [|k|k] eqn:Hk; [|lia|].
  - exists p, 0. rewrite binary_round_aux_canonical.
    + split; [reflexivity|]. split; [lia|]. simpl. lia.
    + unfold canonical_mantissa. apply Z.eqb_eq. rewrite Z.add_0_r, Hfexp by lia. exact Hk.
    + unfold prec, emax. lia.
  - exists (Pos.iter xO p k), (Z.neg k). rewrite binary_round_aux_canonical.
    + split; [reflexivity|]. split; [lia|]. rewrite pos_iter_value. reflexivity.
    + unfold canonical_mantissa. apply Z.eqb_eq.
      rewrite digits2_pos_iter, Hfexp by lia. lia.
    + unfold prec, emax. lia.
Qed.

Lemma round_of_nat (n : nat) :
  Z.of_nat n < 2 ^ 53 -> Number.Math_round (Number.of_nat n) = Z.of_nat n.
Proof.
  intros Hlt. destruct n as [|n']; [vm_compute; reflexivity|].
  destruct (of_nat_exact (S n') ltac:(lia) Hlt) as (m & e & Hsf & He & Hm).
  unfold Number.Math_round. rewrite Hsf.
  destruct (Z.leb_spec 0 e) as [H0|H0].
  - assert (e = 0) by lia. subst e. rewrite Hm. simpl. lia.
  - rewrite Hm. replace (1 - e) with (Z.succ (- e)) by lia.
    rewrite Z.pow_succ_r by lia.
    set (q := 2 ^ (- e)). assert (0 < q) by (apply Z.pow_pos_nonneg; lia).
    replace (2 * (Z.of_nat (S n') * q) + q) with ((2 * Z.of_nat (S n') + 1) * q) by ring.
    rewrite Z.div_mul_cancel_r by lia.
    replace (2 * Z.of_nat (S n') + 1) with (1 + Z.of_nat (S n') * 2) by ring.
    rewrite Z.div_add by lia. reflexivity.
Qed.

Lemma div_eucl_shiftl (m : positive) :
  Z.div_eucl (Z.shiftl (Z.pos m) 53) (Z.pos m) = (2 ^ 53, 0).
Proof.
  assert (H : forall a b, Z.div_eucl a b = (a / b, a mod b)).
  { intros a b. unfold Z.div, Z.modulo. destruct (Z.div_eucl a b); reflexivity. }
  rewrite H, Z.shiftl_mul_pow2 by lia.
  rewrite (Z.mul_comm (Z.pos m)), Z.div_mul, Z.mod_mul by lia. reflexivity.
Qed.

Lemma div_self (x : float) (s : bool) (m : positive) (e : Z) :
  Prim2SF x = S754_finite s m e -> PrimFloat.div x x = PrimFloat.one.
Proof.
  intros Hx. apply Prim2SF_inj. rewrite FloatAxioms.div_spec, Hx.
  unfold SF64div, SFdiv, SFdiv_core_binary.
  rewrite Z.sub_diag, Z.sub_diag.
  replace (Z.min (fexp prec emax 0) 0) with (-53) by reflexivity.
  replace (0 - -53) with 53 by reflexivity. cbv iota beta zeta.
  rewrite div_eucl_shiftl.
  assert (Hloc : new_location (Z.pos m) 0 = loc_Exact).
  { unfold new_location, new_location_even, new_location_odd.
    destruct (Z.even (Z.pos m)); reflexivity. }
  rewrite Hloc. destruct s; vm_compute; reflexivity.
Qed.

Lemma mul_one_r (x : float) : PrimFloat.mul x PrimFloat.one = x.
Proof.
  apply Prim2SF_inj. rewrite FloatAxioms.mul_spec.
  replace (Prim2SF PrimFloat.one) with (S754_finite false 4503599627370496 (-52))
    by (vm_compute; reflexivity).
  pose proof (Prim2SF_valid x) as Hv.
  destruct (Prim2SF x) as [s|s| |s m e]; unfold SF64mul, SFmul.
  - destruct s; reflexivity.
  - destruct s; reflexivity.
  - reflexivity.
  - rewrite xorb_false_r.
    cbn [valid_binary] in Hv. unfold bounded in Hv.
    apply andb_prop in Hv as [Hc He]. apply Z.leb_le in He.
    pose proof Hc as Hc'. unfold canonical_mantissa in Hc'. apply Z.eqb_eq in Hc'.
    unfold binary_round_aux.
    replace (shr_fexp prec emax (Z.pos (m * 4503599627370496)) (e + -52) loc_Exact)
      with (Build_shr_record (Z.pos m) false false, e).
    + cbn [shr_m loc_of_shr_record round_nearest_even].
      rewrite (shr_fexp_canonical m e Hc). cbn [shr_m].
      apply Z.leb_le in He. rewrite He. reflexivity.
    + unfold shr_fexp. rewrite Pos.mul_comm.
      change (4503599627370496 * m)%positive with (Pos.iter xO m 52).
      cbn [Zdigits2 shr_record_of_loc]. rewrite digits2_pos_iter.
      replace (fexp prec emax _ - (e + -52)) with 52.
      * unfold shr. replace (e + -52 + 52) with e by lia.
        reflexivity.
      * match goal with |- context [fexp prec emax ?a] =>
          replace a with (Z.pos (digits2_pos m) + e) by lia end.
        rewrite Hc'. lia.
Qed.

End Binary64.

(** ** The interleaver *)

Lemma combineImages_wf_returned `{Surface} (s : World) (img1 img2 : ref) (a b : Canvas.t) :
  canvases s !! img1 = Some a -> canvases s !! img2 = Some b ->
  Canvas.wf a -> Canvas.wf b ->
  combineImages img1 img2 s =
    Returned (length (canvases s)) (mkWorld (canvases s ++ [interleaved a b]) (files s)).
Proof.
  intros H1 H2 (Hw1 & Hh1 & Hl1 & _) (Hw2 & Hh2 & Hl2 & _).
  apply combineImages_returned; assumption.
Qed.

Lemma channel_of_pixel (c : Canvas.t) (x y k : nat) :
  length (Canvas.data c) = Canvas.width c * Canvas.height c * 4 ->
  x < Canvas.width c -> y < Canvas.height c -> k < 4 ->
  Canvas.channel c x y k =
    channels (pixel_at (Canvas.width c) (Canvas.data c) x y) !! k.
Proof.
  intros Hlen Hx Hy Hk. unfold Canvas.channel, pixel_at, channels. cbv zeta.
  cbn [red green blue alpha].
  assert (Hcell : y * Canvas.width c + x < Canvas.width c * Canvas.height c).
  { apply Nat.lt_le_trans with (S y * Canvas.width c); [simpl; lia|].
    rewrite (Nat.mul_comm (Canvas.width c)). apply Nat.mul_le_mono_r. lia. }
  destruct (lookup_lt_is_Some_2 (Canvas.data c) ((y * Canvas.width c + x) * 4 + k))
    as [v Hv]; [lia|].
  rewrite Hv.
  destruct k as [|[|[|[|k]]]]; [rewrite Nat.add_0_r in Hv| | | |lia];
    rewrite Hv; reflexivity.
Qed.

(** The pixel the loop leaves at column [x]: at an even column the
    colours of the second buffer's pixel under the first buffer's alpha,
    at an odd column the first buffer's pixel. *)
Lemma interleaved_pixel `{Surface} (a b : Canvas.t) (x y : nat) :
  Canvas.wf a -> Forall TypedArray.is_byte (Canvas.data b) ->
  x < Canvas.width a -> y < Canvas.height a ->
  pixel_at (Canvas.width a) (Canvas.data (interleaved a b)) x y =
    stored
      (if Nat.even x
       then mkRGBA (red (pixel_at (Canvas.width b) (Canvas.data b) x y))
                   (green (pixel_at (Canvas.width b) (Canvas.data b) x y))
                   (blue (pixel_at (Canvas.width b) (Canvas.data b) x y))
                   (alpha (pixel_at (Canvas.width a) (Canvas.data a) x y))
       else pixel_at (Canvas.width a) (Canvas.data a) x y).
Proof.
  intros (_ & _ & Hl & _) Hb Hx Hy. unfold interleaved. cbn [Canvas.data].
  rewrite pixel_at_raster by assumption.
  rewrite columns_loop_pixel by assumption. reflexivity.
Qed.

Lemma interleaved_wf `{Surface} (a b : Canvas.t) :
  Canvas.wf a -> Canvas.wf (interleaved a b).
Proof.
  intros (Hw & Hh & Hlen & Hbytes). unfold Canvas.wf, interleaved.
  cbn [Canvas.width Canvas.height Canvas.data].
  rewrite raster_length.
  repeat split; try assumption.
  apply raster_bytes. intros x y.
  apply stored_bytes, pixel_at_bytes, columns_loop_bytes, Hbytes.
Qed.

Lemma interleaved_channel `{Surface} (a b : Canvas.t) (x y k : nat) :
  Canvas.wf a -> Forall TypedArray.is_byte (Canvas.data b) ->
  x < Canvas.width a -> y < Canvas.height a -> k < 4 ->
  Canvas.channel (interleaved a b) x y k =
    channels
      (stored
         (if Nat.even x
          then mkRGBA (red (pixel_at (Canvas.width b) (Canvas.data b) x y))
                      (green (pixel_at (Canvas.width b) (Canvas.data b) x y))
                      (blue (pixel_at (Canvas.width b) (Canvas.data b) x y))
                      (alpha (pixel_at (Canvas.width a) (Canvas.data a) x y))
          else pixel_at (Canvas.width a) (Canvas.data a) x y)) !! k.
Proof.
  intros Ha Hb Hx Hy Hk.
  destruct (interleaved_wf a b Ha) as (_ & _ & Hl & _).
  rewrite channel_of_pixel by assumption.
  change (Canvas.width (interleaved a b)) with (Canvas.width a).
  rewrite interleaved_pixel by assumption. reflexivity.
Qed.

Lemma solid_stored `{Surface} (a : Canvas.t) (x y : nat) :
  solid a -> x < Canvas.width a -> y < Canvas.height a ->
  stored (pixel_at (Canvas.width a) (Canvas.data a) x y) =
    pixel_at (Canvas.width a) (Canvas.data a) x y.
Proof.
  intros Ha Hx Hy. destruct (Ha x y Hx Hy) as [E|E].
  - apply stored_opaque, E.
  - rewrite E. reflexivity.
Qed.

Lemma same_colours (p : RGBA) : mkRGBA (red p) (green p) (blue p) (alpha p) = p.
Proof. destruct p; reflexivity. Qed.

Lemma canvas_ext (c c' : Canvas.t) :
  Canvas.width c = Canvas.width c' -> Canvas.height c = Canvas.height c' ->
  length (Canvas.data c) = Canvas.width c * Canvas.height c * 4 ->
  length (Canvas.data c') = Canvas.width c * Canvas.height c * 4 ->
  (forall x y, x < Canvas.width c -> y < Canvas.height c ->
     pixel_at (Canvas.width c) (Canvas.data c) x y =
     pixel_at (Canvas.width c) (Canvas.data c') x y) ->
  c = c'.
Proof.
  destruct c as [w h d], c' as [w' h' d']. cbn [Canvas.width Canvas.height Canvas.data].
  intros <- <- Hl Hl' Hpx. f_equal. exact (pixel_ext w h d d' Hl Hl' Hpx).
Qed.

(** C1, as the code has it. On two buffers of equal width and height
    [combineImages] returns a buffer of that size whose alpha is everywhere
    the first buffer's. Where that alpha is 255, an even column has the
    red, green and blue of the second buffer and an odd column those of
    the first. Where it is 0 the three colours are 0. Where it is in
    between, the colours are those same values as the canvas keeps them
    under that alpha. *)
Theorem combineImages_interleaves `{Surface}
    (s : World) (img1 img2 : ref) (a b : Canvas.t) :
  canvases s !! img1 = Some a -> canvases s !! img2 = Some b ->
  Canvas.wf a -> Canvas.wf b ->
  Canvas.width a = Canvas.width b -> Canvas.height a = Canvas.height b ->
  exists out s' c,
    combineImages img1 img2 s = Returned out s' /\
    canvases s' !! out = Some c /\
    Canvas.width c = Canvas.width a /\ Canvas.height c = Canvas.height a /\
    forall x y, x < Canvas.width a -> y < Canvas.height a ->
      let from := if Nat.even x then b else a in
      Canvas.channel c x y 3 = Canvas.channel a x y 3 /\
      (Canvas.channel a x y 3 = Some 255%Z ->
         forall k, k < 3 -> Canvas.channel c x y k = Canvas.channel from x y k) /\
      (Canvas.channel a x y 3 = Some 0%Z ->
         forall k, k < 3 -> Canvas.channel c x y k = Some 0%Z) /\
      (forall al, Canvas.channel a x y 3 = Some al -> al <> 0%Z -> al <> 255%Z ->
         forall k v, k < 3 -> Canvas.channel from x y k = Some v ->
           Canvas.channel c x y k = Some (quantize v al)).
Proof.
  intros H1 H2 Ha Hb Hw Hh.
  exists (length (canvases s)), (mkWorld (canvases s ++ [interleaved a b]) (files s)),
    (interleaved a b).
  split; [apply combineImages_wf_returned; assumption|].
  split; [cbn [canvases]; apply list_lookup_middle; reflexivity|].
  split; [reflexivity|]. split; [reflexivity|].
  intros x y Hx Hy from.
  pose proof Ha as (_ & _ & Hla & _). pose proof Hb as (_ & _ & Hlb & Hbytes).
  assert (Hfrom : forall k, k < 4 ->
            Canvas.channel from x y k =
              channels (if Nat.even x
                        then pixel_at (Canvas.width b) (Canvas.data b) x y
                        else pixel_at (Canvas.width a) (Canvas.data a) x y) !! k).
  { intros k Hk. unfold from. destruct (Nat.even x);
      apply channel_of_pixel; (assumption || lia). }
  assert (Hc : forall k, k < 4 ->
            Canvas.channel (interleaved a b) x y k = _)
    by (intros k Hk; exact (interleaved_channel a b x y k Ha Hbytes Hx Hy Hk)).
  rewrite (channel_of_pixel a x y 3) by (assumption || lia).
  change (channels (pixel_at (Canvas.width a) (Canvas.data a) x y) !! 3)
    with (Some (alpha (pixel_at (Canvas.width a) (Canvas.data a) x y))).
  set (pa := pixel_at (Canvas.width a) (Canvas.data a) x y) in *.
  set (pb := pixel_at (Canvas.width b) (Canvas.data b) x y) in *.
  set (m := if Nat.even x then mkRGBA (red pb) (green pb) (blue pb) (alpha pa) else pa) in *.
  assert (Hm : alpha m = alpha pa) by (unfold m; destruct (Nat.even x); reflexivity).
  assert (Hcol : forall k, k < 3 ->
            channels m !! k = channels (if Nat.even x then pb else pa) !! k).
  { intros k Hk. unfold m. destruct (Nat.even x); [|reflexivity].
    destruct k as [|[|[|k]]]; [reflexivity..|lia]. }
  repeat split.
  - rewrite Hc by lia.
    change (channels (stored m) !! 3) with (Some (alpha (stored m))).
    rewrite stored_alpha, Hm. reflexivity.
  - intros Hal k Hk. injection Hal as Hal. change (alpha pa = 255%Z) in Hal.
    rewrite Hc, Hfrom by lia. rewrite stored_opaque by congruence.
    apply Hcol, Hk.
  - intros Hal k Hk. injection Hal as Hal. change (alpha pa = 0%Z) in Hal.
    rewrite Hc by lia. rewrite stored_transparent by congruence.
    destruct k as [|[|[|k]]]; [reflexivity..|lia].
  - intros al Hal Hn0 Hn255 k v Hk Hv. injection Hal as Hal.
    change (alpha pa = al) in Hal.
    rewrite Hc by lia. rewrite Hfrom, <- Hcol in Hv by lia.
    unfold stored. rewrite Hm, Hal.
    destruct (Z.eqb_spec al 0); [contradiction|].
    destruct (Z.eqb_spec al 255); [contradiction|].
    destruct k as [|[|[|k]]]; [| | |lia]; injection Hv as <-; reflexivity.
Qed.

Lemma red2x2_wf : Canvas.wf Examples.red2x2.
Proof.
  unfold Canvas.wf, Examples.red2x2, Examples.red_pixel, TypedArray.is_byte.
  cbn [Canvas.width Canvas.height Canvas.data app length].
  repeat split; try lia. repeat constructor; lia.
Defined.

Lemma blue2x2_wf : Canvas.wf Examples.blue2x2.
Proof.
  unfold Canvas.wf, Examples.blue2x2, Examples.blue_pixel, TypedArray.is_byte.
  cbn [Canvas.width Canvas.height Canvas.data app length].
  repeat split; try lia. repeat constructor; lia.
Defined.

Lemma dot_wf : Canvas.wf Examples.dot.
Proof.
  unfold Canvas.wf, Examples.dot, TypedArray.is_byte.
  cbn [Canvas.width Canvas.height Canvas.data app length].
  repeat split; try lia. repeat constructor; lia.
Defined.

Lemma blue1x1_wf : Canvas.wf Examples.blue1x1.
Proof.
  unfold Canvas.wf, Examples.blue1x1, TypedArray.is_byte.
  cbn [Canvas.width Canvas.height Canvas.data app length].
  repeat split; try lia. repeat constructor; lia.
Defined.

Lemma veil2x1_wf : Canvas.wf Examples.veil2x1.
Proof.
  unfold Canvas.wf, Examples.veil2x1, TypedArray.is_byte.
  cbn [Canvas.width Canvas.height Canvas.data app length].
  repeat split; try lia. repeat constructor; lia.
Defined.

Lemma red2x1_wf : Canvas.wf Examples.red2x1.
Proof.
  unfold Canvas.wf, Examples.red2x1, TypedArray.is_byte.
  cbn [Canvas.width Canvas.height Canvas.data app length].
  repeat split; try lia. repeat constructor; lia.
Defined.

Lemma combineImages_interleaves_witness :
  exists out s' c,
    @combineImages Examples.truncating 0 1 Examples.veil_and_red = Returned out s' /\
    canvases s' !! out = Some c /\
    Canvas.width c = 2 /\ Canvas.height c = 1 /\
    forall x y, x < 2 -> y < 1 ->
      let from := if Nat.even x then Examples.red2x1 else Examples.veil2x1 in
      Canvas.channel c x y 3 = Canvas.channel Examples.veil2x1 x y 3 /\
      (Canvas.channel Examples.veil2x1 x y 3 = Some 255%Z ->
         forall k, k < 3 -> Canvas.channel c x y k = Canvas.channel from x y k) /\
      (Canvas.channel Examples.veil2x1 x y 3 = Some 0%Z ->
         forall k, k < 3 -> Canvas.channel c x y k = Some 0%Z) /\
      (forall al, Canvas.channel Examples.veil2x1 x y 3 = Some al ->
         al <> 0%Z -> al <> 255%Z ->
         forall k v, k < 3 -> Canvas.channel from x y k = Some v ->
           Canvas.channel c x y k = Some (@quantize Examples.truncating v al)).
Proof.
  apply (@combineImages_interleaves Examples.truncating Examples.veil_and_red 0 1
           Examples.veil2x1 Examples.red2x1);
    first [reflexivity | apply veil2x1_wf | apply red2x1_wf].
Defined.

(** C1, as stated, fails where the first buffer is transparent: a 1x1
    buffer of alpha 0 interleaved with an opaque red one gives transparent
    black, not red under alpha 0 (on any surface: no quantisation is
    involved). *)
Lemma combineImages_transparent_drops_colour :
  Canvas.width Examples.clear1x1 = Canvas.width Examples.red1x1 /\
  Canvas.height Examples.clear1x1 = Canvas.height Examples.red1x1 /\
  Canvas.channel Examples.red1x1 0 0 0 = Some 255%Z /\
  @combineImages Examples.truncating 0 1 Examples.clear_and_red =
    Returned 2
      (mkWorld [Examples.clear1x1; Examples.red1x1; Canvas.mk 1 1 [0; 0; 0; 0]%Z] []).
Proof. repeat split. Qed.

(** C2, as the code has it. [combineImages] compares no dimensions: on any
    two well-formed buffers, of equal size or not, it returns an output
    buffer of the first buffer's size, and it has no failure condition. *)
Theorem combineImages_no_dimension_check `{Surface}
    (s : World) (img1 img2 : ref) (a b : Canvas.t) :
  canvases s !! img1 = Some a -> canvases s !! img2 = Some b ->
  Canvas.wf a -> Canvas.wf b ->
  exists out s' c,
    combineImages img1 img2 s = Returned out s' /\
    canvases s' !! out = Some c /\
    Canvas.width c = Canvas.width a /\ Canvas.height c = Canvas.height a /\
    length (Canvas.data c) = Canvas.width a * Canvas.height a * 4.
Proof.
  intros H1 H2 Ha Hb.
  exists (length (canvases s)), (mkWorld (canvases s ++ [interleaved a b]) (files s)),
    (interleaved a b).
  split; [apply combineImages_wf_returned; assumption|].
  split; [cbn [canvases]; apply list_lookup_middle; reflexivity|].
  split; [reflexivity|]. split; [reflexivity|].
  unfold interleaved. cbn [Canvas.data]. apply raster_length.
Qed.

Lemma combineImages_no_dimension_check_witness :
  Canvas.width Examples.red2x2 <> Canvas.width Examples.dot /\
  exists out s' c,
    @combineImages Examples.truncating 0 1 Examples.red_and_dot = Returned out s' /\
    canvases s' !! out = Some c /\
    Canvas.width c = 2 /\ Canvas.height c = 2 /\
    length (Canvas.data c) = 16.
Proof.
  split; [discriminate|].
  apply (@combineImages_no_dimension_check Examples.truncating Examples.red_and_dot 0 1
           Examples.red2x2 Examples.dot);
    first [reflexivity | apply red2x2_wf | apply dot_wf].
Defined.

(** C2, as stated, fails: a 2x2 buffer and a 1x1 buffer are interleaved
    without any error, and an output buffer comes back. *)
Lemma combineImages_mismatch_returns :
  Canvas.width Examples.red2x2 <> Canvas.width Examples.dot /\
  Canvas.height Examples.red2x2 <> Canvas.height Examples.dot /\
  @combineImages Examples.truncating 0 1 Examples.red_and_dot =
    Returned 2
      (mkWorld [Examples.red2x2; Examples.dot;
                Canvas.mk 2 2 [1; 2; 3; 255; 255; 0; 0; 255;
                               0; 0; 0; 255; 255; 0; 0; 255]%Z] []).
Proof. split; [discriminate|]. split; [discriminate|]. vm_compute. reflexivity. Qed.

(** C8, as the code has it. Interleaving a buffer with itself returns a
    buffer of the same size whose every pixel is the buffer's pixel as
    the canvas keeps it once written; the result is identical to the
    buffer when every pixel of it is opaque or transparent black. *)
Theorem combineImages_self `{Surface} (s : World) (img : ref) (a : Canvas.t) :
  canvases s !! img = Some a -> Canvas.wf a ->
  exists out s' c,
    combineImages img img s = Returned out s' /\
    canvases s' !! out = Some c /\
    Canvas.width c = Canvas.width a /\ Canvas.height c = Canvas.height a /\
    (forall x y, x < Canvas.width a -> y < Canvas.height a ->
       pixel_at (Canvas.width a) (Canvas.data c) x y =
         stored (pixel_at (Canvas.width a) (Canvas.data a) x y)) /\
    (solid a -> c = a).
Proof.
  intros Hr Ha.
  exists (length (canvases s)), (mkWorld (canvases s ++ [interleaved a a]) (files s)),
    (interleaved a a).
  split; [apply combineImages_wf_returned; assumption|].
  split; [cbn [canvases]; apply list_lookup_middle; reflexivity|].
  split; [reflexivity|]. split; [reflexivity|].
  pose proof Ha as (_ & _ & Hl & Hbytes).
  assert (Hpx : forall x y, x < Canvas.width a -> y < Canvas.height a ->
            pixel_at (Canvas.width a) (Canvas.data (interleaved a a)) x y =
              stored (pixel_at (Canvas.width a) (Canvas.data a) x y)).
  { intros x y Hx Hy. rewrite interleaved_pixel by assumption.
    destruct (Nat.even x); [rewrite same_colours|]; reflexivity. }
  split; [exact Hpx|].
  intros Hsolid. apply canvas_ext; try reflexivity.
  - apply (interleaved_wf a a Ha).
  - exact Hl.
  - intros x y Hx Hy.
    change (Canvas.width (interleaved a a)) with (Canvas.width a) in *.
    change (Canvas.height (interleaved a a)) with (Canvas.height a) in *.
    rewrite Hpx by assumption. apply solid_stored; assumption.
Qed.

Lemma combineImages_self_witness :
  exists out s' c,
    @combineImages Examples.truncating 0 0 Examples.red_and_blue = Returned out s' /\
    canvases s' !! out = Some c /\
    Canvas.width c = 2 /\ Canvas.height c = 2 /\
    (forall x y, x < 2 -> y < 2 ->
       pixel_at 2 (Canvas.data c) x y =
         @stored Examples.truncating (pixel_at 2 (Canvas.data Examples.red2x2) x y)) /\
    (solid Examples.red2x2 -> c = Examples.red2x2).
Proof.
  apply (@combineImages_self Examples.truncating Examples.red_and_blue 0 Examples.red2x2);
    first [reflexivity | apply red2x2_wf].
Defined.

(** C8, as stated, fails on a translucent pixel: red 199 under alpha 128
    is kept by the canvas as 99 and read back as 197, so the buffer
    interleaved with itself comes back changed. *)
Lemma combineImages_self_requantised :
  @combineImages Examples.truncating 0 0 Examples.veil_alone =
    Returned 1
      (mkWorld [Examples.veil1x1; Canvas.mk 1 1 [197; 0; 0; 128]%Z] []) /\
  Canvas.mk 1 1 [197; 0; 0; 128]%Z <> Examples.veil1x1.
Proof. split; [vm_compute; reflexivity | discriminate]. Qed.

(** C9. [combineImages] returns a reference to a canvas that did not exist
    before the call, and every canvas that existed, the two sources among
    them, holds after the call what it held before. *)
Theorem combineImages_preserves_sources `{Surface}
    (s : World) (img1 img2 : ref) (a b : Canvas.t) :
  canvases s !! img1 = Some a -> canvases s !! img2 = Some b ->
  Canvas.wf a -> Canvas.wf b ->
  exists out s',
    combineImages img1 img2 s = Returned out s' /\
    canvases s !! out = None /\ is_Some (canvases s' !! out) /\
    canvases s' !! img1 = Some a /\ canvases s' !! img2 = Some b /\
    forall r c, canvases s !! r = Some c -> canvases s' !! r = Some c.
Proof.
  intros H1 H2 Ha Hb.
  exists (length (canvases s)), (mkWorld (canvases s ++ [interleaved a b]) (files s)).
  split; [apply combineImages_wf_returned; assumption|].
  split; [apply lookup_ge_None_2; lia|].
  split; [exists (interleaved a b); cbn [canvases]; apply list_lookup_middle; reflexivity|].
  cbn [canvases].
  split; [apply lookup_app_l_Some; exact H1|].
  split; [apply lookup_app_l_Some; exact H2|].
  intros r c Hr. apply lookup_app_l_Some. exact Hr.
Qed.

Lemma combineImages_preserves_sources_witness :
  exists out s',
    @combineImages Examples.truncating 0 1 Examples.red_and_blue = Returned out s' /\
    canvases Examples.red_and_blue !! out = None /\ is_Some (canvases s' !! out) /\
    canvases s' !! 0 = Some Examples.red2x2 /\ canvases s' !! 1 = Some Examples.blue2x2 /\
    forall r c, canvases Examples.red_and_blue !! r = Some c -> canvases s' !! r = Some c.
Proof.
  apply (@combineImages_preserves_sources Examples.truncating Examples.red_and_blue 0 1
           Examples.red2x2 Examples.blue2x2);
    first [reflexivity | apply red2x2_wf | apply blue2x2_wf].
Defined.

(** C10. On any two buffers, of equal size or not, [combineImages] raises
    nothing and returns a buffer of the first buffer's size. At an even
    column the loop reads red, green and blue from the second buffer's
    array at [(y * b.width + x) * 4 + k], the row offset taken with the
    second buffer's own width: a position past the end of that array
    gives [0], a position inside it gives whatever byte lies there. The
    pixel of the result is that colour under the first buffer's alpha, and
    at an odd column the first buffer's pixel, each as the canvas keeps
    it; under an alpha of 255 the channels are those very bytes. *)
Theorem combineImages_any_dimensions `{Surface}
    (s : World) (img1 img2 : ref) (a b : Canvas.t) :
  canvases s !! img1 = Some a -> canvases s !! img2 = Some b ->
  Canvas.wf a -> Canvas.wf b ->
  exists out s' c,
    combineImages img1 img2 s = Returned out s' /\
    canvases s' !! out = Some c /\
    Canvas.width c = Canvas.width a /\ Canvas.height c = Canvas.height a /\
    forall x y, x < Canvas.width a -> y < Canvas.height a ->
      let read k := match Canvas.data b !! ((y * Canvas.width b + x) * 4 + k) with
                    | Some v => v
                    | None => 0%Z
                    end in
      let pa := pixel_at (Canvas.width a) (Canvas.data a) x y in
      pixel_at (Canvas.width a) (Canvas.data c) x y =
        stored (if Nat.even x then mkRGBA (read 0) (read 1) (read 2) (alpha pa) else pa) /\
      (Canvas.channel a x y 3 = Some 255%Z ->
         (Nat.even x = true -> forall k, k < 3 ->
            Canvas.channel c x y k = Some (read k)) /\
         Canvas.channel c x y 3 = Some 255%Z /\
         (Nat.even x = false -> forall k, k < 4 ->
            Canvas.channel c x y k = Canvas.channel a x y k)).
Proof.
  intros H1 H2 Ha Hb.
  exists (length (canvases s)), (mkWorld (canvases s ++ [interleaved a b]) (files s)),
    (interleaved a b).
  split; [apply combineImages_wf_returned; assumption|].
  split; [cbn [canvases]; apply list_lookup_middle; reflexivity|].
  split; [reflexivity|]. split; [reflexivity|].
  intros x y Hx Hy read pa.
  pose proof Ha as (_ & _ & Hla & _). pose proof Hb as (_ & _ & _ & Hbytes).
  assert (Hpx : pixel_at (Canvas.width a) (Canvas.data (interleaved a b)) x y =
                stored (if Nat.even x
                        then mkRGBA (read 0) (read 1) (read 2) (alpha pa) else pa)).
  { rewrite interleaved_pixel by assumption. unfold read, pixel_at. cbv zeta.
    cbn [red green blue]. rewrite Nat.add_0_r. reflexivity. }
  split; [exact Hpx|].
  intros Hal. rewrite (channel_of_pixel a x y 3) in Hal by (assumption || lia).
  injection Hal as Hal. change (alpha pa = 255%Z) in Hal.
  assert (Hc : forall k, k < 4 ->
            Canvas.channel (interleaved a b) x y k =
              channels (if Nat.even x
                        then mkRGBA (read 0) (read 1) (read 2) (alpha pa) else pa) !! k).
  { intros k Hk. destruct (interleaved_wf a b Ha) as (_ & _ & Hl & _).
    rewrite channel_of_pixel by assumption.
    change (Canvas.width (interleaved a b)) with (Canvas.width a).
    rewrite Hpx. rewrite stored_opaque; [reflexivity|].
    destruct (Nat.even x); exact Hal. }
  repeat split.
  - intros Hev k Hk. rewrite Hc, Hev by lia.
    destruct k as [|[|[|k]]]; [reflexivity..|lia].
  - rewrite Hc by lia. destruct (Nat.even x); cbn [channels lookup list_lookup alpha];
      rewrite Hal; reflexivity.
  - intros Hev k Hk. rewrite Hc, Hev by lia.
    symmetry. apply channel_of_pixel; assumption.
Qed.

Lemma combineImages_any_dimensions_witness :
  exists out s' c,
    @combineImages Examples.truncating 0 1 Examples.red_and_blue_dot = Returned out s' /\
    canvases s' !! out = Some c /\
    Canvas.width c = 2 /\ Canvas.height c = 2 /\
    forall x y, x < 2 -> y < 2 ->
      let read k := match Canvas.data Examples.blue1x1 !! ((y * 1 + x) * 4 + k) with
                    | Some v => v
                    | None => 0%Z
                    end in
      let pa := pixel_at 2 (Canvas.data Examples.red2x2) x y in
      pixel_at 2 (Canvas.data c) x y =
        @stored Examples.truncating
          (if Nat.even x then mkRGBA (read 0) (read 1) (read 2) (alpha pa) else pa) /\
      (Canvas.channel Examples.red2x2 x y 3 = Some 255%Z ->
         (Nat.even x = true -> forall k, k < 3 ->
            Canvas.channel c x y k = Some (read k)) /\
         Canvas.channel c x y 3 = Some 255%Z /\
         (Nat.even x = false -> forall k, k < 4 ->
            Canvas.channel c x y k = Canvas.channel Examples.red2x2 x y k)).
Proof.
  apply (@combineImages_any_dimensions Examples.truncating Examples.red_and_blue_dot 0 1
           Examples.red2x2 Examples.blue1x1);
    first [reflexivity | apply red2x2_wf | apply blue1x1_wf].
Defined.

(** ** The normalizer, stretch variant *)

(** The canvas a scaled draw of [img] leaves in a fresh [w] by [h] canvas. *)
Lemma scaled_canvas_returned `{Collaborators} (img : Image.t) (w h : nat) (s : World) :
  (canvas ← CanvasAPI.createCanvas w h;
   _ ← CanvasAPI.drawImageScaled canvas img w h;
   mret canvas) s =
  Returned (length (canvases s))
    (mkWorld (canvases s ++ [Canvas.mk w h (raster w h (resample img w h))]) (files s)).
Proof.
  erewrite bind_returned by reflexivity.
  set (blank := Canvas.mk w h (replicate _ _)).
  assert (Hn : canvases (mkWorld (canvases s ++ [blank]) (files s)) !! length (canvases s)
               = Some blank).
  { cbn [canvases]. apply list_lookup_middle. reflexivity. }
  erewrite bind_returned; cycle 1.
  { unfold CanvasAPI.drawImageScaled.
    rewrite (bind_returned _ _ _ _ _ (read_returned _ _ _ Hn)).
    apply (write_data_returned _ _ _ _ Hn). }
  unfold mret, M_ret. cbn [canvases files blank Canvas.width Canvas.height].
  rewrite (raster_ext w h _ (resample img w h)).
  - replace (length (canvases s)) with (length (canvases s) + 0) at 2 by lia.
    rewrite insert_app_r. reflexivity.
  - intros x y Hx Hy.
    destruct (Nat.ltb_spec x w); [|lia]. destruct (Nat.ltb_spec y h); [|lia]. reflexivity.
Qed.

Lemma loadImageWithPath_returned `{Collaborators} (filePath : string) (img : Image.t) (s : World) :
  decode filePath = inl img -> Stretch.loadImageWithPath filePath s = Returned img s.
Proof.
  intros Hd. unfold Stretch.loadImageWithPath, try_catch, CanvasAPI.loadImage.
  rewrite Hd. reflexivity.
Qed.

Lemma loadImageWithPath_thrown `{Collaborators} (filePath message : string) (s : World) :
  decode filePath = inr message ->
  Stretch.loadImageWithPath filePath s =
    Thrown (Error ("Failed to load image from " +:+ filePath +:+ ": " +:+ message)) s.
Proof.
  intros Hd. unfold Stretch.loadImageWithPath, try_catch, CanvasAPI.loadImage.
  rewrite Hd. reflexivity.
Qed.

Lemma stretch_returned `{Collaborators}
    (filePath : string) (img : Image.t) (w h : nat) (s : World) :
  decode filePath = inl img ->
  Stretch.loadAndResizeImage filePath w h s =
    Returned (length (canvases s))
      (mkWorld (canvases s ++ [Canvas.mk w h (raster w h (resample img w h))]) (files s)).
Proof.
  intros Hd. unfold Stretch.loadAndResizeImage.
  rewrite (bind_returned _ _ _ _ _ (loadImageWithPath_returned _ _ _ Hd)).
  apply scaled_canvas_returned.
Qed.

(** C5. For a source that decodes and a target size [(w, h)] with both
    positive, the stretch normalizer returns a buffer of width exactly [w]
    and height exactly [h] (with its [w * h] pixels). *)
Theorem stretch_exact_size `{Collaborators}
    (filePath : string) (img : Image.t) (w h : nat) (s : World) :
  decode filePath = inl img -> 0 < w -> 0 < h ->
  exists out s' c,
    Stretch.loadAndResizeImage filePath w h s = Returned out s' /\
    canvases s' !! out = Some c /\
    Canvas.width c = w /\ Canvas.height c = h /\
    length (Canvas.data c) = w * h * 4.
Proof.
  intros Hd _ _. eexists _, _, _.
  split; [apply stretch_returned; exact Hd|].
  split; [cbn [canvases]; apply list_lookup_middle; reflexivity|].
  cbn [Canvas.width Canvas.height Canvas.data]. rewrite raster_length. auto.
Qed.

Lemma stretch_exact_size_witness :
  exists out s' c,
    @Stretch.loadAndResizeImage Examples.disk "wide.png" 3 2 Examples.empty = Returned out s' /\
    canvases s' !! out = Some c /\
    Canvas.width c = 3 /\ Canvas.height c = 2 /\
    length (Canvas.data c) = 3 * 2 * 4.
Proof.
  apply (@stretch_exact_size Examples.disk "wide.png" (Examples.grey 18 7) 3 2 Examples.empty);
    first [reflexivity | lia].
Defined.

(** C7, as the code has it. The stretch normalizer checks no target size:
    with a zero width or a zero height it still allocates a canvas of
    exactly the requested size, an empty one, and returns it. Its one
    failure is the decoder's, raised before any canvas is allocated. *)
Theorem stretch_no_dimension_check `{Collaborators}
    (filePath : string) (w h : nat) (s : World) :
  w = 0 \/ h = 0 ->
  match decode filePath with
  | inl img =>
      exists out s' c,
        Stretch.loadAndResizeImage filePath w h s = Returned out s' /\
        canvases s !! out = None /\ canvases s' !! out = Some c /\
        Canvas.width c = w /\ Canvas.height c = h /\ Canvas.data c = []
  | inr message =>
      Stretch.loadAndResizeImage filePath w h s =
        Thrown (Error ("Failed to load image from " +:+ filePath +:+ ": " +:+ message)) s
  end.
Proof.
  intros Hzero. destruct (decode filePath) as [img|message] eqn:Hd.
  - eexists _, _, _.
    split; [apply stretch_returned; exact Hd|].
    split; [apply lookup_ge_None_2; lia|].
    split; [cbn [canvases]; apply list_lookup_middle; reflexivity|].
    cbn [Canvas.width Canvas.height Canvas.data].
    split; [reflexivity|]. split; [reflexivity|].
    apply nil_length_inv. rewrite raster_length. destruct Hzero; subst; lia.
  - unfold Stretch.loadAndResizeImage.
    apply bind_thrown, loadImageWithPath_thrown. exact Hd.
Qed.

Lemma stretch_no_dimension_check_witness :
  exists out s' c,
    @Stretch.loadAndResizeImage Examples.disk "wide.png" 0 5 Examples.empty = Returned out s' /\
    canvases Examples.empty !! out = None /\ canvases s' !! out = Some c /\
    Canvas.width c = 0 /\ Canvas.height c = 5 /\ Canvas.data c = [].
Proof.
  apply (@stretch_no_dimension_check Examples.disk "wide.png" 0 5 Examples.empty).
  left. reflexivity.
Defined.

(** C7, as stated, fails: with target width [0] the normalizer raises no
    error and hands back a canvas it has allocated. *)
Lemma stretch_zero_width_returns :
  @Stretch.loadAndResizeImage Examples.disk "wide.png" 0 5 Examples.empty =
    Returned 0 (mkWorld [Canvas.mk 0 5 []] []).
Proof. vm_compute. reflexivity. Qed.

(** C6. In [processImages], with sources of natural sizes [(w1, h1)] and
    [(w2, h2)], both normalizer calls receive the target
    [(min w1 w2, min h1 h2)], both buffers they return have exactly that
    size, and these two buffers are the ones handed to [combineImages]. *)
Theorem processImages_common_size `{Collaborators} `{Surface}
    (args : Args) (img1 img2 : Image.t) (s : World) :
  decode (image1Path args) = inl img1 ->
  decode (image2Path args) = inl img2 ->
  let commonWidth := Nat.min (Image.width img1) (Image.width img2) in
  let commonHeight := Nat.min (Image.height img1) (Image.height img2) in
  exists r1 s1 r2 s2 c1 c2,
    Stretch.loadAndResizeImage (image1Path args) commonWidth commonHeight s = Returned r1 s1 /\
    Stretch.loadAndResizeImage (image2Path args) commonWidth commonHeight s1 = Returned r2 s2 /\
    canvases s2 !! r1 = Some c1 /\ canvases s2 !! r2 = Some c2 /\
    Canvas.width c1 = commonWidth /\ Canvas.height c1 = commonHeight /\
    Canvas.width c2 = commonWidth /\ Canvas.height c2 = commonHeight /\
    Stretch.processImages args s =
      (imgCombined ← combineImages r1 r2; saveImage (outputPath args) imgCombined) s2.
Proof.
  intros Hd1 Hd2 commonWidth commonHeight.
  eexists _, _, _, _, _, _.
  split; [apply stretch_returned; exact Hd1|].
  split; [apply stretch_returned; exact Hd2|].
  cbn [canvases].
  split.
  { apply lookup_app_l_Some, list_lookup_middle. reflexivity. }
  split.
  { apply list_lookup_middle. reflexivity. }
  cbn [Canvas.width Canvas.height].
  repeat (split; [reflexivity|]).
  unfold Stretch.processImages.
  rewrite (bind_returned _ _ _ _ _ (loadImageWithPath_returned _ _ _ Hd1)).
  rewrite (bind_returned _ _ _ _ _ (loadImageWithPath_returned _ _ _ Hd2)).
  fold commonWidth commonHeight.
  erewrite bind_returned by (apply stretch_returned; exact Hd1).
  erewrite bind_returned by (apply stretch_returned; exact Hd2).
  reflexivity.
Qed.

Lemma processImages_common_size_witness :
  exists r1 s1 r2 s2 c1 c2,
    @Stretch.loadAndResizeImage Examples.disk "wide.png" 3 4 Examples.empty = Returned r1 s1 /\
    @Stretch.loadAndResizeImage Examples.disk "tall.png" 3 4 s1 = Returned r2 s2 /\
    canvases s2 !! r1 = Some c1 /\ canvases s2 !! r2 = Some c2 /\
    Canvas.width c1 = 3 /\ Canvas.height c1 = 4 /\
    Canvas.width c2 = 3 /\ Canvas.height c2 = 4 /\
    @Stretch.processImages Examples.disk Examples.truncating Examples.args Examples.empty =
      (imgCombined ← @combineImages Examples.truncating r1 r2;
       saveImage "images/out.png" imgCombined) s2.
Proof.
  apply (@processImages_common_size Examples.disk Examples.truncating Examples.args
           (Examples.grey 18 7) (Examples.grey 3 4) Examples.empty);
    reflexivity.
Defined.

(** ** The normalizer, aspect-fit variant *)

Lemma aspect_fit_returned `{Collaborators}
    (path : string) (img : Image.t) (targetWidth targetHeight : nat) (s : World) :
  decode path = inl img ->
  let size := Spec.double_fit (Image.width img) (Image.height img) targetWidth targetHeight in
  AspectFit.loadAndResizeImage path targetWidth targetHeight s =
    Returned (length (canvases s))
      (mkWorld (canvases s ++
                  [Canvas.mk size.1 size.2 (raster size.1 size.2 (resample img size.1 size.2))])
               (files s)).
Proof.
  intros Hd size. unfold AspectFit.loadAndResizeImage.
  erewrite bind_returned by (unfold CanvasAPI.loadImage; rewrite Hd; reflexivity).
  unfold size, Spec.double_fit.
  destruct (PrimFloat.ltb PrimFloat.one _); cbn [fst snd];
    rewrite Nat2Z.id; apply scaled_canvas_returned.
Qed.

Lemma double_fit_square (n targetWidth targetHeight : nat) :
  0 < n -> (Z.of_nat n < 2 ^ 53)%Z -> (Z.of_nat targetHeight < 2 ^ 53)%Z ->
  Spec.double_fit n n targetWidth targetHeight = (targetHeight, targetHeight).
Proof.
  intros Hpos Hn Hth. unfold Spec.double_fit.
  destruct (of_nat_exact n Hpos Hn) as (m & e & Hsf & _).
  rewrite (div_self _ _ _ _ Hsf).
  replace (PrimFloat.ltb PrimFloat.one PrimFloat.one) with false by (vm_compute; reflexivity).
  rewrite mul_one_r, round_of_nat by exact Hth.
  rewrite Nat2Z.id. reflexivity.
Qed.

(** C3, as the code has it. The aspect-fit normalizer returns a buffer of
    size [(targetWidth, round (targetWidth / aspectRatio))] when
    [aspectRatio > 1] and [(round (targetHeight * aspectRatio),
    targetHeight)] otherwise, where [aspectRatio = sourceWidth /
    sourceHeight] and each quotient and product is the binary64 one the
    code computes. A square source takes the second branch and gives
    [(targetHeight, targetHeight)]. *)
Theorem aspect_fit_size `{Collaborators}
    (path : string) (img : Image.t) (targetWidth targetHeight : nat) (s : World) :
  decode path = inl img ->
  exists out s' c,
    AspectFit.loadAndResizeImage path targetWidth targetHeight s = Returned out s' /\
    canvases s' !! out = Some c /\
    (Canvas.width c, Canvas.height c) =
      Spec.double_fit (Image.width img) (Image.height img) targetWidth targetHeight /\
    (Image.width img = Image.height img -> 0 < Image.width img ->
     (Z.of_nat (Image.width img) < 2 ^ 53)%Z -> (Z.of_nat targetHeight < 2 ^ 53)%Z ->
     Canvas.width c = targetHeight /\ Canvas.height c = targetHeight).
Proof.
  intros Hd. eexists _, _, _.
  split; [apply aspect_fit_returned; exact Hd|].
  split; [cbn [canvases]; apply list_lookup_middle; reflexivity|].
  cbn [Canvas.width Canvas.height].
  split; [symmetry; apply surjective_pairing|].
  intros Hsq Hpos Hw Hth. rewrite <- Hsq.
  rewrite double_fit_square by assumption. split; reflexivity.
Qed.

Lemma aspect_fit_size_witness :
  exists out s' c,
    @AspectFit.loadAndResizeImage Examples.disk "square.png" 400 300 Examples.empty
      = Returned out s' /\
    canvases s' !! out = Some c /\
    (Canvas.width c, Canvas.height c) = Spec.double_fit 5 5 400 300 /\
    (5 = 5 -> 0 < 5 -> (Z.of_nat 5 < 2 ^ 53)%Z -> (Z.of_nat 300 < 2 ^ 53)%Z ->
     Canvas.width c = 300 /\ Canvas.height c = 300).
Proof.
  apply (@aspect_fit_size Examples.disk "square.png" (Examples.grey 5 5) 400 300 Examples.empty).
  reflexivity.
Defined.

(** C3, as stated, fails: for an 18x7 source and target width 9 the exact
    quotient [9 * 7 / 18 = 3.5] rounds to [4], while the code, dividing by
    the double [18 / 7], gets a value just below [3.5] and a height of
    [3]. *)
Lemma aspect_fit_not_exact :
  exists c,
    @AspectFit.loadAndResizeImage Examples.disk "wide.png" 9 9 Examples.empty =
      Returned 0 (mkWorld [c] []) /\
    (Canvas.width c, Canvas.height c) = (9, 3) /\
    Spec.exact_fit 18 7 9 9 = (9, 4).
Proof.
  exists (Canvas.mk 9 3 (raster 9 3 (fun _ _ => mkRGBA 0 0 0 255))).
  repeat split; vm_compute; reflexivity.
Qed.

(** C4, as the code has it. The aspect-fit normalizer pins one axis to the
    box: the width equals [targetWidth] when [aspectRatio > 1], the height
    equals [targetHeight] otherwise; so at least one output dimension
    equals its box dimension. (The other axis is not bounded by the box.) *)
Theorem aspect_fit_pins_one_axis `{Collaborators}
    (path : string) (img : Image.t) (targetWidth targetHeight : nat) (s : World) :
  decode path = inl img -> 0 < targetWidth -> 0 < targetHeight ->
  exists out s' c,
    AspectFit.loadAndResizeImage path targetWidth targetHeight s = Returned out s' /\
    canvases s' !! out = Some c /\
    (if PrimFloat.ltb PrimFloat.one
          (PrimFloat.div (Number.of_nat (Image.width img)) (Number.of_nat (Image.height img)))
     then Canvas.width c = targetWidth
     else Canvas.height c = targetHeight) /\
    (Canvas.width c = targetWidth \/ Canvas.height c = targetHeight).
Proof.
  intros Hd _ _. eexists _, _, _.
  split; [apply aspect_fit_returned; exact Hd|].
  split; [cbn [canvases]; apply list_lookup_middle; reflexivity|].
  cbn [Canvas.width Canvas.height]. unfold Spec.double_fit.
  destruct (PrimFloat.ltb PrimFloat.one _); cbn [fst snd]; auto.
Qed.

Lemma aspect_fit_pins_one_axis_witness :
  exists out s' c,
    @AspectFit.loadAndResizeImage Examples.disk "landscape.png" 4 1 Examples.empty
      = Returned out s' /\
    canvases s' !! out = Some c /\
    (if PrimFloat.ltb PrimFloat.one (PrimFloat.div (Number.of_nat 2) (Number.of_nat 1))
     then Canvas.width c = 4
     else Canvas.height c = 1) /\
    (Canvas.width c = 4 \/ Canvas.height c = 1).
Proof.
  apply (@aspect_fit_pins_one_axis Examples.disk "landscape.png" (Examples.grey 2 1) 4 1
           Examples.empty);
    first [reflexivity | lia].
Defined.

(** C4, as stated, fails: a 2x1 source in a 4x1 box comes out 4 wide and
    2 high, taller than the box. *)
Lemma aspect_fit_exceeds_box :
  exists c,
    @AspectFit.loadAndResizeImage Examples.disk "landscape.png" 4 1 Examples.empty =
      Returned 0 (mkWorld [c] []) /\
    Canvas.width c = 4 /\ Canvas.height c = 2 /\
    ~ (Canvas.height c <= 1).
Proof.
  exists (Canvas.mk 4 2 (raster 4 2 (fun _ _ => mkRGBA 0 0 0 255))).
  split; [vm_compute; reflexivity|].
  cbn [Canvas.width Canvas.height]. repeat split; lia.
Qed.

(** * Further properties of the code *)

(** ** The loop keeps a byte array a byte array *)

(** X1. On well-formed buffers [combineImages] allocates exactly one
    canvas, writes no file, and the canvas it returns is again a
    well-formed buffer: positive size, four channels per pixel, every
    channel in [0, 255], whatever values the second array holds. *)
Theorem combineImages_output_wf `{Surface} (s : World) (img1 img2 : ref) (a b : Canvas.t) :
  canvases s !! img1 = Some a -> canvases s !! img2 = Some b ->
  Canvas.wf a -> Canvas.wf b ->
  exists out s' c,
    combineImages img1 img2 s = Returned out s' /\
    canvases s' = canvases s ++ [c] /\ files s' = files s /\
    canvases s' !! out = Some c /\ Canvas.wf c.
Proof.
  intros H1 H2 Ha Hb.
  exists (length (canvases s)), (mkWorld (canvases s ++ [interleaved a b]) (files s)),
    (interleaved a b).
  split; [apply combineImages_wf_returned; assumption|].
  cbn [canvases files].
  split; [reflexivity|]. split; [reflexivity|].
  split; [apply list_lookup_middle; reflexivity | apply interleaved_wf, Ha].
Qed.

Lemma combineImages_output_wf_witness :
  exists out s' c,
    @combineImages Examples.truncating 0 1 Examples.red_and_dot = Returned out s' /\
    canvases s' = canvases Examples.red_and_dot ++ [c] /\
    files s' = files Examples.red_and_dot /\
    canvases s' !! out = Some c /\ Canvas.wf c.
Proof.
  apply (@combineImages_output_wf Examples.truncating Examples.red_and_dot 0 1
           Examples.red2x2 Examples.dot);
    first [reflexivity | apply red2x2_wf | apply dot_wf].
Defined.

(** ** Interleaving again *)

Lemma red2x2_solid : solid Examples.red2x2.
Proof.
  intros x y Hx Hy. left.
  destruct x as [|[|x]]; [| |cbn in Hx; lia];
    (destruct y as [|[|y]]; [| |cbn in Hy; lia]); reflexivity.
Defined.

Lemma interleaved_twice `{Surface} (a b : Canvas.t) :
  Canvas.wf a -> Forall TypedArray.is_byte (Canvas.data b) -> solid a ->
  interleaved (interleaved a b) b = interleaved a b.
Proof.
  intros Ha Hb Hsolid.
  pose proof (interleaved_wf a b Ha) as Hab.
  apply canvas_ext; try reflexivity.
  - apply (interleaved_wf _ b Hab).
  - apply Hab.
  - intros x y Hx Hy.
    change (Canvas.width (interleaved (interleaved a b) b)) with (Canvas.width a) in *.
    change (Canvas.height (interleaved (interleaved a b) b)) with (Canvas.height a) in *.
    pose proof (interleaved_pixel (interleaved a b) b x y Hab Hb Hx Hy) as Houter.
    change (Canvas.width (interleaved a b)) with (Canvas.width a) in Houter.
    rewrite Houter. clear Houter.
    rewrite !(interleaved_pixel a b) by assumption.
    destruct (Nat.even x).
    + rewrite stored_alpha. reflexivity.
    + rewrite !(solid_stored a x y) by assumption. reflexivity.
Qed.

Lemma interleaved_back `{Surface} (a b : Canvas.t) :
  Canvas.wf a -> Forall TypedArray.is_byte (Canvas.data b) -> solid a ->
  interleaved (interleaved a b) a = a.
Proof.
  intros Ha Hb Hsolid.
  pose proof (interleaved_wf a b Ha) as Hab.
  pose proof Ha as (_ & _ & Hla & Hbytes).
  apply canvas_ext; try reflexivity.
  - apply (interleaved_wf _ a Hab).
  - exact Hla.
  - intros x y Hx Hy.
    change (Canvas.width (interleaved (interleaved a b) a)) with (Canvas.width a) in *.
    change (Canvas.height (interleaved (interleaved a b) a)) with (Canvas.height a) in *.
    pose proof (interleaved_pixel (interleaved a b) a x y Hab Hbytes Hx Hy) as Houter.
    change (Canvas.width (interleaved a b)) with (Canvas.width a) in Houter.
    rewrite Houter. clear Houter.
    rewrite !(interleaved_pixel a b) by assumption.
    destruct (Nat.even x).
    + rewrite stored_alpha. cbn [alpha]. rewrite same_colours.
      apply solid_stored; assumption.
    + rewrite !(solid_stored a x y) by assumption. reflexivity.
Qed.

(** X2. For a first buffer whose pixels are all opaque or transparent
    black, interleaving the result once more with the same second buffer
    changes nothing: [combineImages(combineImages(a, b), b)] holds the
    same canvas as [combineImages(a, b)]. *)
Theorem combineImages_again `{Surface} (s : World) (img1 img2 : ref) (a b : Canvas.t) :
  canvases s !! img1 = Some a -> canvases s !! img2 = Some b ->
  Canvas.wf a -> Canvas.wf b -> solid a ->
  exists out s1 out' s2 c,
    combineImages img1 img2 s = Returned out s1 /\
    combineImages out img2 s1 = Returned out' s2 /\
    canvases s1 !! out = Some c /\ canvases s2 !! out' = Some c.
Proof.
  intros H1 H2 Ha Hb Hsolid.
  pose proof (combineImages_wf_returned s img1 img2 a b H1 H2 Ha Hb) as Hrun.
  set (s1 := mkWorld (canvases s ++ [interleaved a b]) (files s)) in *.
  assert (Hout : canvases s1 !! length (canvases s) = Some (interleaved a b))
    by (cbn [s1 canvases]; apply list_lookup_middle; reflexivity).
  assert (H2' : canvases s1 !! img2 = Some b)
    by (cbn [s1 canvases]; apply lookup_app_l_Some; exact H2).
  eexists _, _, _, _, (interleaved a b).
  split; [exact Hrun|].
  split; [apply (combineImages_wf_returned s1 _ img2 _ b Hout H2' (interleaved_wf a b Ha) Hb)|].
  split; [exact Hout|].
  cbn [canvases]. rewrite interleaved_twice by (assumption || apply Hb).
  apply list_lookup_middle. reflexivity.
Qed.

Lemma combineImages_again_witness :
  exists out s1 out' s2 c,
    @combineImages Examples.truncating 0 1 Examples.red_and_blue_dot = Returned out s1 /\
    @combineImages Examples.truncating out 1 s1 = Returned out' s2 /\
    canvases s1 !! out = Some c /\ canvases s2 !! out' = Some c.
Proof.
  apply (@combineImages_again Examples.truncating Examples.red_and_blue_dot 0 1
           Examples.red2x2 Examples.blue1x1);
    first [reflexivity | apply red2x2_wf | apply blue1x1_wf | apply red2x2_solid].
Defined.

(** X3. For a first buffer whose pixels are all opaque or transparent
    black, interleaving the result with the first buffer restores it:
    [combineImages(combineImages(a, b), a)] holds a canvas identical to
    [a], for any second buffer [b]. *)
Theorem combineImages_back `{Surface} (s : World) (img1 img2 : ref) (a b : Canvas.t) :
  canvases s !! img1 = Some a -> canvases s !! img2 = Some b ->
  Canvas.wf a -> Canvas.wf b -> solid a ->
  exists out s1 out' s2,
    combineImages img1 img2 s = Returned out s1 /\
    combineImages out img1 s1 = Returned out' s2 /\
    canvases s2 !! out' = Some a.
Proof.
  intros H1 H2 Ha Hb Hsolid.
  pose proof (combineImages_wf_returned s img1 img2 a b H1 H2 Ha Hb) as Hrun.
  set (s1 := mkWorld (canvases s ++ [interleaved a b]) (files s)) in *.
  assert (Hout : canvases s1 !! length (canvases s) = Some (interleaved a b))
    by (cbn [s1 canvases]; apply list_lookup_middle; reflexivity).
  assert (H1' : canvases s1 !! img1 = Some a)
    by (cbn [s1 canvases]; apply lookup_app_l_Some; exact H1).
  eexists _, _, _, _.
  split; [exact Hrun|].
  split; [apply (combineImages_wf_returned s1 _ img1 _ a Hout H1' (interleaved_wf a b Ha) Ha)|].
  cbn [canvases]. rewrite interleaved_back by (assumption || apply Hb).
  apply list_lookup_middle. reflexivity.
Qed.

Lemma combineImages_back_witness :
  exists out s1 out' s2,
    @combineImages Examples.truncating 0 1 Examples.red_and_blue = Returned out s1 /\
    @combineImages Examples.truncating out 0 s1 = Returned out' s2 /\
    canvases s2 !! out' = Some Examples.red2x2.
Proof.
  apply (@combineImages_back Examples.truncating Examples.red_and_blue 0 1
           Examples.red2x2 Examples.blue2x2);
    first [reflexivity | apply red2x2_wf | apply blue2x2_wf | apply red2x2_solid].
Defined.

(** X4. When the first buffer is no wider and no higher than the second,
    every read of the loop stays inside the second buffer's grid: at an
    even column, where the first buffer is opaque, the output has the
    red, green and blue of the second buffer's pixel at the same column
    and row (its top-left crop). *)
Theorem combineImages_crops_larger `{Surface}
    (s : World) (img1 img2 : ref) (a b : Canvas.t) :
  canvases s !! img1 = Some a -> canvases s !! img2 = Some b ->
  Canvas.wf a -> Canvas.wf b ->
  Canvas.width a <= Canvas.width b -> Canvas.height a <= Canvas.height b ->
  exists out s' c,
    combineImages img1 img2 s = Returned out s' /\
    canvases s' !! out = Some c /\
    forall x y k, x < Canvas.width a -> y < Canvas.height a ->
      Nat.even x = true -> k < 3 ->
      Canvas.channel a x y 3 = Some 255%Z ->
      is_Some (Canvas.channel b x y k) /\
      Canvas.channel c x y k = Canvas.channel b x y k.
Proof.
  intros H1 H2 Ha Hb Hw Hh.
  exists (length (canvases s)), (mkWorld (canvases s ++ [interleaved a b]) (files s)),
    (interleaved a b).
  split; [apply combineImages_wf_returned; assumption|].
  split; [cbn [canvases]; apply list_lookup_middle; reflexivity|].
  intros x y k Hx Hy Hev Hk Hal.
  pose proof Ha as (_ & _ & Hla & _). pose proof Hb as (_ & _ & Hlb & Hbytes).
  rewrite (channel_of_pixel a x y 3) in Hal by (assumption || lia).
  injection Hal as Hal.
  rewrite interleaved_channel, Hev by (assumption || lia).
  rewrite stored_opaque by exact Hal.
  rewrite (channel_of_pixel b x y k) by (assumption || lia).
  split; [|destruct k as [|[|[|k]]]; [reflexivity..|lia]].
  destruct k as [|[|[|k]]]; [eexists; reflexivity..|lia].
Qed.

Lemma combineImages_crops_larger_witness :
  exists out s' c,
    @combineImages Examples.truncating 1 0 Examples.red_and_blue_dot = Returned out s' /\
    canvases s' !! out = Some c /\
    forall x y k, x < 1 -> y < 1 -> Nat.even x = true -> k < 3 ->
      Canvas.channel Examples.blue1x1 x y 3 = Some 255%Z ->
      is_Some (Canvas.channel Examples.red2x2 x y k) /\
      Canvas.channel c x y k = Canvas.channel Examples.red2x2 x y k.
Proof.
  apply (@combineImages_crops_larger Examples.truncating Examples.red_and_blue_dot 1 0
           Examples.blue1x1 Examples.red2x2);
    first [reflexivity | apply red2x2_wf | apply blue1x1_wf | cbn; lia].
Defined.

(** ** The columns the loop visits *)

Lemma columns_from_seq (w fuel x0 : nat) :
  columns_from w fuel x0 =
    map (fun k => x0 + 2 * k) (seq 0 (Nat.min fuel ((w + 1 - x0) / 2))).
Proof.
  revert x0. induction fuel as [|fuel IH]; intros x0; cbn [columns_from].
  - reflexivity.
  - destruct (Nat.ltb_spec x0 w) as [Hlt|Hge].
    + rewrite IH.
      replace ((w + 1 - x0) / 2) with (S ((w + 1 - (x0 + 2)) / 2)).
      * rewrite <- Nat.succ_min_distr. cbn [seq map].
        f_equal; [lia|]. rewrite <- seq_shift, map_map.
        apply map_ext. intros k. lia.
      * replace (w + 1 - x0) with ((w + 1 - (x0 + 2)) + 1 * 2) by lia.
        rewrite Nat.div_add by lia. lia.
    + rewrite (Nat.div_small (w + 1 - x0) 2) by lia.
      rewrite Nat.min_0_r. reflexivity.
Qed.

(** X5. The column loop visits the columns [0, 2, 4, ...] in increasing
    order, [(w + 1) / 2] of them: every even column below the width, the
    last column included exactly when the width is odd. *)
Theorem columns_even_in_order (w : nat) :
  columns w = map (fun k => 2 * k) (seq 0 ((w + 1) / 2)).
Proof.
  destruct w as [|w]; [reflexivity|].
  unfold columns. rewrite columns_from_seq, Nat.sub_0_r.
  rewrite Nat.min_r; [reflexivity|].
  apply Nat.Div0.div_le_upper_bound. lia.
Qed.

(** ** Empty buffers *)

(** The first three statements of [combineImages]: the new canvas, with
    the first source drawn on it. *)
Lemma combineImages_prologue (s : World) (img1 : ref) (a : Canvas.t) :
  canvases s !! img1 = Some a ->
  exists d,
    (canvas ← CanvasAPI.createCanvas (Canvas.width a) (Canvas.height a);
     _ ← CanvasAPI.drawImage canvas img1;
     mret canvas) s =
    Returned (length (canvases s))
      (mkWorld (canvases s ++ [Canvas.mk (Canvas.width a) (Canvas.height a) d]) (files s)).
Proof.
  intros H1. pose proof (lookup_lt_Some _ _ _ H1) as Hlt.
  eexists. erewrite bind_returned by reflexivity.
  set (blank := Canvas.mk _ _ (replicate _ _)).
  erewrite bind_returned; cycle 1.
  { unfold CanvasAPI.drawImage.
    erewrite bind_returned
      by (apply read_returned; cbn [canvases]; rewrite lookup_app_l by exact Hlt; exact H1).
    erewrite bind_returned
      by (apply read_returned; cbn [canvases]; apply list_lookup_middle; reflexivity).
    apply write_data_returned. cbn [canvases]. apply list_lookup_middle. reflexivity. }
  unfold mret, M_ret. cbn [canvases files blank Canvas.width Canvas.height].
  replace (length (canvases s)) with (length (canvases s) + 0) at 2 by lia.
  rewrite insert_app_r. reflexivity.
Qed.

Lemma getImageData_zero (r : ref) (sw sh : nat) (s : World) (c : Canvas.t) :
  canvases s !! r = Some c -> sw = 0 \/ sh = 0 ->
  CanvasAPI.getImageData r sw sh s = Thrown IndexSizeError s.
Proof.
  intros Hr Hz. unfold CanvasAPI.getImageData.
  rewrite (bind_returned _ _ _ _ _ (read_returned _ _ _ Hr)).
  destruct Hz as [-> | ->]; [reflexivity|].
  rewrite orb_true_r. reflexivity.
Qed.

Lemma getImageData_positive (r : ref) (sw sh : nat) (s : World) (c : Canvas.t) :
  canvases s !! r = Some c -> 0 < sw -> 0 < sh ->
  exists imgData, CanvasAPI.getImageData r sw sh s = Returned imgData s.
Proof.
  intros Hr Hw Hh. unfold CanvasAPI.getImageData.
  rewrite (bind_returned _ _ _ _ _ (read_returned _ _ _ Hr)).
  destruct (Nat.eqb_spec sw 0); [lia|]. destruct (Nat.eqb_spec sh 0); [lia|].
  eexists. reflexivity.
Qed.

Lemma combineImages_thrown_empty `{Surface} (s : World) (img1 img2 : ref) (a b : Canvas.t) :
  canvases s !! img1 = Some a -> canvases s !! img2 = Some b ->
  Canvas.width a = 0 \/ Canvas.height a = 0 \/
  Canvas.width b = 0 \/ Canvas.height b = 0 ->
  exists d,
    combineImages img1 img2 s =
      Thrown IndexSizeError
        (mkWorld (canvases s ++ [Canvas.mk (Canvas.width a) (Canvas.height a) d]) (files s)).
Proof.
  intros H1 H2 Hzero.
  pose proof (lookup_lt_Some _ _ _ H2) as Hlt2.
  destruct (combineImages_prologue s img1 a H1) as [d Hpro].
  set (s1 := mkWorld (canvases s ++ [Canvas.mk (Canvas.width a) (Canvas.height a) d]) (files s))
    in *.
  assert (Hn : canvases s1 !! length (canvases s)
               = Some (Canvas.mk (Canvas.width a) (Canvas.height a) d))
    by (cbn [s1 canvases]; apply list_lookup_middle; reflexivity).
  assert (H2' : canvases s1 !! img2 = Some b)
    by (cbn [s1 canvases]; apply lookup_app_l_Some; exact H2).
  exists d. fold s1.
  unfold combineImages.
  rewrite (bind_returned _ _ _ _ _ (read_returned _ _ _ H1)).
  unfold mbind at 1, M_bind at 1.
  unfold mbind at 1 2 in Hpro. unfold M_bind at 1 2 in Hpro.
  destruct (CanvasAPI.createCanvas (Canvas.width a) (Canvas.height a) s) as [n s0|e s0] eqn:Hc;
    [|discriminate Hpro].
  unfold mbind at 1, M_bind at 1.
  destruct (CanvasAPI.drawImage n img1 s0) as [u s0'|e s0'] eqn:Hd; [|discriminate Hpro].
  injection Hpro as -> ->.
  destruct (Nat.eq_dec (Canvas.width a) 0) as [Hw|Hw];
    [apply bind_thrown, (getImageData_zero _ _ _ _ _ Hn); left; exact Hw|].
  destruct (Nat.eq_dec (Canvas.height a) 0) as [Hh|Hh];
    [apply bind_thrown, (getImageData_zero _ _ _ _ _ Hn); right; exact Hh|].
  destruct (getImageData_positive _ (Canvas.width a) (Canvas.height a) s1 _ Hn) as [i1 Hi1];
    [lia | lia |].
  rewrite (bind_returned _ _ _ _ _ Hi1).
  rewrite (bind_returned _ _ _ _ _ (read_returned _ _ _ H2')).
  apply bind_thrown, (getImageData_zero _ _ _ _ _ H2'). lia.
Qed.

(** X6. [combineImages] does not accept an empty buffer: when either
    source has width [0] or height [0] the call raises an exception
    ([getImageData] rejects an empty rectangle) instead of returning. The
    canvas it had already created stays allocated; the sources and the
    written files are untouched. *)
Theorem combineImages_rejects_empty `{Surface} (s : World) (img1 img2 : ref) (a b : Canvas.t) :
  canvases s !! img1 = Some a -> canvases s !! img2 = Some b ->
  Canvas.width a = 0 \/ Canvas.height a = 0 \/
  Canvas.width b = 0 \/ Canvas.height b = 0 ->
  exists e s' c,
    combineImages img1 img2 s = Thrown e s' /\
    canvases s' = canvases s ++ [c] /\ files s' = files s.
Proof.
  intros H1 H2 Hzero.
  destruct (combineImages_thrown_empty s img1 img2 a b H1 H2 Hzero) as [d Hthrown].
  exists IndexSizeError. eexists _, _.
  split; [exact Hthrown|]. split; reflexivity.
Qed.

Lemma combineImages_rejects_empty_witness :
  exists e s' c,
    @combineImages Examples.truncating 0 1
      (mkWorld [Examples.dot; Canvas.mk 0 5 []] []) = Thrown e s' /\
    canvases s' = [Examples.dot; Canvas.mk 0 5 []] ++ [c] /\ files s' = [].
Proof.
  apply (@combineImages_rejects_empty Examples.truncating
           (mkWorld [Examples.dot; Canvas.mk 0 5 []] []) 0 1
           Examples.dot (Canvas.mk 0 5 []));
    first [reflexivity | right; right; left; reflexivity].
Defined.

(** ** The stretch pipeline, end to end *)

Lemma lookup_appended {A} (l : list A) (x y : A) :
  (l ++ [x; y]) !! length l = Some x /\ (l ++ [x; y]) !! S (length l) = Some y.
Proof.
  split; [apply list_lookup_middle; reflexivity|].
  change (l ++ [x; y]) with (l ++ [x] ++ [y]). rewrite app_assoc.
  apply list_lookup_middle. rewrite length_app. simpl. lia.
Qed.

(** [processImages] once both sources have decoded. *)
Lemma processImages_decoded `{Collaborators} `{Surface} (args : Args) (img1 img2 : Image.t) (s : World) :
  decode (image1Path args) = inl img1 -> decode (image2Path args) = inl img2 ->
  let w := Nat.min (Image.width img1) (Image.width img2) in
  let h := Nat.min (Image.height img1) (Image.height img2) in
  let c1 := Canvas.mk w h (raster w h (resample img1 w h)) in
  let c2 := Canvas.mk w h (raster w h (resample img2 w h)) in
  Stretch.processImages args s =
    (imgCombined ← combineImages (length (canvases s)) (S (length (canvases s)));
     saveImage (outputPath args) imgCombined)
      (mkWorld (canvases s ++ [c1; c2]) (files s)).
Proof.
  intros Hd1 Hd2 w h c1 c2. unfold Stretch.processImages.
  rewrite (bind_returned _ _ _ _ _ (loadImageWithPath_returned _ _ _ Hd1)).
  rewrite (bind_returned _ _ _ _ _ (loadImageWithPath_returned _ _ _ Hd2)).
  fold w h.
  erewrite bind_returned by (apply stretch_returned; exact Hd1).
  erewrite bind_returned by (apply stretch_returned; exact Hd2).
  cbn [canvases files]. rewrite length_app, <- app_assoc. cbn [length app].
  replace (length (canvases s) + 1) with (S (length (canvases s))) by lia.
  reflexivity.
Qed.

Lemma saveImage_returned (filePath : string) (r : ref) (s : World) (c : Canvas.t) :
  canvases s !! r = Some c ->
  saveImage filePath r s = Returned tt (mkWorld (canvases s) (files s ++ [(filePath, c)])).
Proof.
  intros Hr. unfold saveImage, CanvasAPI.pipePNG.
  rewrite (bind_returned _ _ _ _ _ (read_returned _ _ _ Hr)). reflexivity.
Qed.

(** X7. [processImages] fails on the first source that does not decode,
    the first path before the second, with an [Error] whose message is
    ["Failed to load image from <path>: <decoder message>"]; at that point
    no canvas has been allocated and no file written. *)
Theorem processImages_load_failure `{Collaborators} `{Surface}
    (args : Args) (path message : string) (s : World) :
  (decode (image1Path args) = inr message /\ path = image1Path args) \/
  (exists img1, decode (image1Path args) = inl img1 /\
                decode (image2Path args) = inr message /\ path = image2Path args) ->
  Stretch.processImages args s =
    Thrown (Error ("Failed to load image from " +:+ path +:+ ": " +:+ message)) s.
Proof.
  intros [[Hd1 ->] | (img1 & Hd1 & Hd2 & ->)]; unfold Stretch.processImages.
  - apply bind_thrown, loadImageWithPath_thrown, Hd1.
  - rewrite (bind_returned _ _ _ _ _ (loadImageWithPath_returned _ _ _ Hd1)).
    apply bind_thrown, loadImageWithPath_thrown, Hd2.
Qed.

Lemma processImages_load_failure_witness :
  @Stretch.processImages Examples.disk Examples.truncating
    (mkArgs "wide.png" "missing.png" "o.png") Examples.empty =
    Thrown (Error "Failed to load image from missing.png: ENOENT") Examples.empty.
Proof.
  apply (@processImages_load_failure Examples.disk Examples.truncating
           (mkArgs "wide.png" "missing.png" "o.png")
           "missing.png" "ENOENT" Examples.empty).
  right. exists (Examples.grey 18 7). repeat split; reflexivity.
Defined.

Lemma processImages_returned `{Collaborators} `{Surface} (args : Args) (img1 img2 : Image.t) (s : World) :
  decode (image1Path args) = inl img1 -> decode (image2Path args) = inl img2 ->
  0 < Image.width img1 -> 0 < Image.height img1 ->
  0 < Image.width img2 -> 0 < Image.height img2 ->
  let w := Nat.min (Image.width img1) (Image.width img2) in
  let h := Nat.min (Image.height img1) (Image.height img2) in
  let c1 := Canvas.mk w h (raster w h (resample img1 w h)) in
  let c2 := Canvas.mk w h (raster w h (resample img2 w h)) in
  Stretch.processImages args s =
    Returned tt (mkWorld (canvases s ++ [c1; c2; interleaved c1 c2])
                         (files s ++ [(outputPath args, interleaved c1 c2)])).
Proof.
  intros Hd1 Hd2 Hw1 Hh1 Hw2 Hh2 w h c1 c2.
  rewrite (processImages_decoded args img1 img2 s Hd1 Hd2). fold w h c1 c2.
  erewrite bind_returned; cycle 1.
  { apply (combineImages_returned _ _ _ c1 c2);
      cbn [canvases c1 c2 Canvas.width Canvas.height Canvas.data];
      rewrite ?raster_length; try reflexivity; try (unfold w, h; lia);
      apply lookup_appended. }
  erewrite saveImage_returned
    by (cbn [canvases]; apply list_lookup_middle; reflexivity).
  cbn [canvases files]. rewrite <- app_assoc. reflexivity.
Qed.



(** X9. The canvas [processImages] hands to the PNG encoder shows, at
    every even column, the red, green and blue of the second source as
    resampled to the common size under the alpha of the first source as
    resampled, and at every odd column the resampled pixel of the first
    source, each as the canvas keeps it once written (for a resampling
    filter that yields channel values in [0, 255]). *)
Theorem processImages_saved_pixels `{Collaborators} `{Surface}
    (args : Args) (img1 img2 : Image.t) (s : World) :
  decode (image1Path args) = inl img1 -> decode (image2Path args) = inl img2 ->
  0 < Image.width img1 -> 0 < Image.height img1 ->
  0 < Image.width img2 -> 0 < Image.height img2 ->
  (forall w h x y, Forall TypedArray.is_byte (channels (resample img1 w h x y))) ->
  (forall w h x y, Forall TypedArray.is_byte (channels (resample img2 w h x y))) ->
  let w := Nat.min (Image.width img1) (Image.width img2) in
  let h := Nat.min (Image.height img1) (Image.height img2) in
  exists s' out,
    Stretch.processImages args s = Returned tt s' /\
    last (files s') = Some (outputPath args, out) /\
    forall x y, x < w -> y < h ->
      let p1 := resample img1 w h x y in
      let p2 := resample img2 w h x y in
      pixel_at w (Canvas.data out) x y =
        stored (if Nat.even x then mkRGBA (red p2) (green p2) (blue p2) (alpha p1) else p1).
Proof.
  intros Hd1 Hd2 Hw1 Hh1 Hw2 Hh2 Hbytes1 Hbytes2 w h.
  set (c1 := Canvas.mk w h (raster w h (resample img1 w h))).
  set (c2 := Canvas.mk w h (raster w h (resample img2 w h))).
  eexists _, (interleaved c1 c2).
  split; [apply (processImages_returned args img1 img2 s); assumption|].
  split; [cbn [files]; apply last_snoc|].
  intros x y Hx Hy p1 p2.
  assert (Hc1 : Canvas.wf c1).
  { unfold Canvas.wf, c1. cbn [Canvas.width Canvas.height Canvas.data].
    rewrite raster_length. repeat split; try (unfold w, h; lia).
    apply raster_bytes. intros; apply Hbytes1. }
  assert (Hc2 : Forall TypedArray.is_byte (Canvas.data c2))
    by (apply raster_bytes; intros; apply Hbytes2).
  pose proof (interleaved_pixel c1 c2 x y Hc1 Hc2 Hx Hy) as Hpx.
  cbn [c1 c2 Canvas.width Canvas.data] in Hpx. fold c1 c2 in Hpx.
  rewrite !pixel_at_raster in Hpx by assumption.
  exact Hpx.
Qed.

Lemma processImages_saved_pixels_witness :
  exists s' out,
    @Stretch.processImages Examples.palette Examples.truncating
      Examples.palette_args Examples.empty = Returned tt s' /\
    last (files s') = Some ("images/out.png"%string, out) /\
    forall x y, x < 2 -> y < 2 ->
      pixel_at 2 (Canvas.data out) x y =
        @stored Examples.truncating
          (if Nat.even x then mkRGBA 255 0 0 128 else mkRGBA 0 0 255 128).
Proof.
  apply (@processImages_saved_pixels Examples.palette Examples.truncating
           Examples.palette_args
           (Examples.flat 3 2 [0; 0; 255; 128]%Z) (Examples.flat 2 3 [255; 0; 0; 255]%Z)
           Examples.empty);
    first [reflexivity | cbn; lia | idtac];
    intros w h x y; repeat (apply Forall_cons; split; [vm_compute; split; discriminate|]);
    constructor.
Defined.

(** ** The command-line programs *)




(** ** The aspect-fit pipeline *)












(** ** File names *)

Lemma endsWith_spec (s suffix : string) :
  JsString.endsWith s suffix = true <-> exists p, s = p +:+ suffix.
Proof.
  induction s as [|c s IH]; cbn [JsString.endsWith].
  - destruct (String.eqb_spec EmptyString suffix) as [<-|Hne].
    + split; [intros _; exists EmptyString; reflexivity | reflexivity].
    + split; [discriminate|]. intros [[|c p] Hp]; [|discriminate Hp].
      exfalso. apply Hne. exact Hp.
  - destruct (String.eqb_spec (String c s) suffix) as [<-|Hne].
    + split; [intros _; exists EmptyString; reflexivity | reflexivity].
    + rewrite IH. split.
      * intros [p ->]. exists (String c p). reflexivity.
      * intros [[|c' p] Hp]; [exfalso; apply Hne; exact Hp|].
        injection Hp as _ ->. exists p. reflexivity.
Qed.

Lemma fold_case_app (s t : string) :
  JsString.fold_case (s +:+ t) = JsString.fold_case s +:+ JsString.fold_case t.
Proof.
  induction s as [|c s IH]; [reflexivity|].
  change (JsString.fold_case (String c s +:+ t))
    with (String (JsString.fold_char c) (JsString.fold_case (s +:+ t))).
  rewrite IH. reflexivity.
Qed.

(** X13. The output path of the interactive program always names a
    [.png] file: [new Args] resolves, below [images], the given name when
    it already ends in [.png] and the name followed by [.png] otherwise,
    so the resolved name ends in [.png] in both cases and passing a name
    through the rule twice adds nothing. *)
Theorem new_Args_png_suffix `{Node} (image1 image2 output : string) :
  exists name,
    outputPath (Interactive.new_Args image1 image2 output) =
      path_resolve ["images"; name] /\
    JsString.endsWith name ".png" = true /\
    (JsString.endsWith output ".png" = true -> name = output) /\
    (JsString.endsWith output ".png" = false -> name = output +:+ ".png") /\
    Interactive.new_Args image1 image2 name = Interactive.new_Args image1 image2 output.
Proof.
  unfold Interactive.new_Args. cbn [outputPath].
  destruct (JsString.endsWith output ".png") eqn:He.
  - exists output. rewrite He. repeat split; auto; discriminate.
  - exists (output +:+ ".png").
    assert (Hs : JsString.endsWith (output +:+ ".png") ".png" = true)
      by (apply endsWith_spec; eexists; reflexivity).
    rewrite Hs. repeat split; auto; discriminate.
Qed.

(** X14. Every name the output rule of [new Args] produces passes the
    extension test of [getImageFiles], which ignores the case of the
    extension. *)
Theorem output_name_is_image_file (outputPath : string) :
  Interactive.is_image_file
    (if JsString.endsWith outputPath ".png" then outputPath else outputPath +:+ ".png") = true /\
  Interactive.is_image_file (outputPath +:+ ".PNG") = true /\
  Interactive.is_image_file (outputPath +:+ ".Jpg") = true /\
  Interactive.is_image_file (outputPath +:+ ".jpeg") = true.
Proof.
  assert (Hext : forall name ext folded,
            JsString.fold_case ext = folded ->
            JsString.endsWith (JsString.fold_case (name +:+ ext)) folded = true).
  { intros name ext folded <-. apply endsWith_spec. rewrite fold_case_app. eexists. reflexivity. }
  unfold Interactive.is_image_file. repeat split.
  - destruct (JsString.endsWith outputPath ".png") eqn:He.
    + apply endsWith_spec in He as [p ->].
      rewrite (Hext p ".png" ".png" eq_refl). apply orb_true_r.
    + rewrite (Hext outputPath ".png" ".png" eq_refl). apply orb_true_r.
  - rewrite (Hext outputPath ".PNG" ".png" eq_refl). apply orb_true_r.
  - rewrite (Hext outputPath ".Jpg" ".jpg" eq_refl). reflexivity.
  - rewrite (Hext outputPath ".jpeg" ".jpeg" eq_refl). rewrite orb_true_r. reflexivity.
Qed.

(** X15. [getImageFiles] keeps the directory order, returns only names
    whose extension, case ignored, is [.jpg], [.jpeg] or [.png], and
    leaves out no such name of the directory. *)
Theorem getImageFiles_exact `{Node} :
  sublist Interactive.getImageFiles (readdirSync (path_resolve ["images"])) /\
  forall file,
    file ∈ Interactive.getImageFiles <->
    file ∈ readdirSync (path_resolve ["images"]) /\
    exists ext stem,
      ext ∈ [".jpg"; ".jpeg"; ".png"] /\ JsString.fold_case file = stem +:+ ext.
Proof.
  unfold Interactive.getImageFiles. split; [apply sublist_filter|].
  intros file. rewrite list_elem_of_filter. unfold Interactive.is_image_file.
  rewrite !orb_true_iff, !endsWith_spec. split.
  - intros [[[[p Hp]|[p Hp]]|[p Hp]] Hin]; (split; [exact Hin|]).
    + exists ".jpg", p. split; [repeat constructor | exact Hp].
    + exists ".jpeg", p. split; [repeat constructor | exact Hp].
    + exists ".png", p. split; [repeat constructor | exact Hp].
  - intros (Hin & ext & stem & Hext & Hs). split; [|exact Hin].
    apply elem_of_cons in Hext as [->|Hext]; [left; left; eauto|].
    apply elem_of_cons in Hext as [->|Hext]; [left; right; eauto|].
    apply elem_of_cons in Hext as [->|Hext]; [right; eauto|]. inversion Hext.
Qed.
